(** * micrograd.nn: neurons, layers, multi-layer perceptrons and the
    register-addressed [ArchitecturalModel], embedded from
    [src/micrograd/nn.py].

    Conventions of the embedding.
    - A Python exception is a value of [exn]; a method that can raise
      returns [E A = exn + A].
    - Constructors draw random weights and allocate [Value] objects, so
      they live in the monad [M] over a [state] holding the object store,
      the allocation pointer and the random source.  An exception leaves
      the side effects performed so far in place, as in Python.
    - A [Value] object is addressed by its location in the store; the
      weight lists of a neuron hold locations, so that [zero_grad] mutates
      the objects the network refers to and not copies of them.
    - The forward pass returns the [data] of the scalar it computes; the
      computation graph that the engine records for the backward pass is
      not part of this development.
    - Widths ([nin], [nout], [nn]) are natural numbers, and [range(n)]
      runs [n] times. *)

From Stdlib Require Import ZArith.
From Stdlib Require PrimFloat.
From stdpp Require Import base option list gmap strings pretty.

(** ** The scalar engine *)

(** Modelled from the spec: the scalar engine [micrograd.engine] is not
    among the sources.  The spec describes it as "a scalar value type
    supporting arithmetic operators, a relu activation, and backward-pass
    gradient accumulation into a grad attribute".  The numbers carried by
    a [Value] are kept abstract: a carrier with a zero, an addition, a
    multiplication and the two comparisons, of which nothing is assumed.
    Python floats ([Float64.Float_Scalar]) and Python ints ([Z_Scalar])
    are two such carriers. *)
Class Scalar (F : Type) := {
  Fzero : F;
  Fadd : F → F → F;
  Fmul : F → F → F;
  Fle : F → F → bool;
  Flt : F → F → bool
}.

(** The carriers whose arithmetic is exact: addition is associative and
    commutative with neutral element [Fzero], and [<] is the negation of
    the converse [<=].  Python ints are one; Python floats are not (sums
    round, and [nan] compares false both ways). *)
Class ExactArithmetic (F : Type) `{Scalar F} : Prop := {
  Fadd_comm : ∀ a c : F, Fadd a c = Fadd c a;
  Fadd_assoc : ∀ a c d : F, Fadd a (Fadd c d) = Fadd (Fadd a c) d;
  Fadd_0_l : ∀ a : F, Fadd Fzero a = a;
  Flt_nle : ∀ a c : F, Flt a c = negb (Fle c a)
}.

(** Modelled from the spec: [Value.relu], "a rectified-linear activation
    (max(0, value))".  Python's [max(0, v)] keeps [0] unless [v > 0]. *)
Definition relu `{Scalar F} (v : F) : F := if Flt Fzero v then v else Fzero.

(** Modelled from the spec: a [Value] object, of which this module reads
    [data] and assigns [grad] ("grad field per scalar, mutable,
    initialized to 0"). *)
Record Value (F : Type) := mkValue { data : F; grad : F }.
Arguments mkValue {F} _ _.
Arguments data {F} _.
Arguments grad {F} _.

(** ** Python objects, exceptions and the store *)

Definition loc := nat.

(** What a register or a layer input can hold: [None], one scalar, or a
    list of scalars. *)
Inductive pyval (F : Type) :=
  | PNone
  | PScalar (v : F)
  | PList (xs : list F).
Arguments PNone {F}.
Arguments PScalar {F} _.
Arguments PList {F} _.

(** The two [ValueError]s raised by [ArchitecturalModel.__init__]. *)
Inductive message :=
  | WidthMismatch (rout : string) (got expected : nat)
      (* f"register '{rout}' input mismatch (got {nn} expected {register_sizes[rout]})" *)
  | InputSpec.
      (* "The input registers mus be either a single string or a list of two strings." *)

Inductive type_error :=
  | Unhashable           (* a list used as a dict key *)
  | AppendArity (given : nat)   (* list.append takes exactly one argument *)
  | NotIterable          (* zip over None or over a single Value *)
  | CannotUnpack         (* tuple unpacking of something that is no tuple *)
  | BadOperand.          (* + between operands that do not support it *)

Inductive exn :=
  | ValueError (m : message)
  | KeyError (k : string)
  | IndexError
  | TypeError (t : type_error).

Definition E (A : Type) : Type := exn + A.

Definition ebind {A B} (m : E A) (k : A → E B) : E B :=
  match m with
  | inl e => inl e
  | inr a => k a
  end.

Declare Scope exn_scope.
Delimit Scope exn_scope with exn.
Notation "'try!' x ':=' m 'in' k" := (ebind m (λ x, k))
  (at level 10, x name, m at level 200, k at level 200) : exn_scope.

(** [[f(a) for a in l]] where [f] may raise. *)
Fixpoint emap {A B} (f : A → E B) (l : list A) : E (list B) :=
  match l with
  | [] => inr []
  | a :: l' =>
      (try! y := f a in
       try! ys := emap f l' in
       inr (y :: ys))%exn
  end.

Section Store.
Context {F : Type}.

Record state := mkState {
  heap : loc → Value F;   (* the Value objects *)
  next : loc;             (* the next free location *)
  rand : nat → F;         (* the draws random.uniform(-1,1) will return *)
  drawn : nat             (* how many of them were consumed *)
}.

Definition M (A : Type) : Type := state → E A * state.

Definition ret {A} (a : A) : M A := λ st, (inr a, st).
Definition raise {A} (e : exn) : M A := λ st, (inl e, st).
Definition bind {A B} (m : M A) (k : A → M B) : M B :=
  λ st, match m st with
        | (inl e, st') => (inl e, st')
        | (inr a, st') => k a st'
        end.
Definition lift {A} (m : E A) : M A := λ st, (m, st).

Definition heap_set (h : loc → Value F) (p : loc) (v : Value F) : loc → Value F :=
  λ q, if decide (q = p) then v else h q.

(** [random.uniform(-1, 1)] *)
Definition random_uniform : M F :=
  λ st, (inr (rand st (drawn st)),
         mkState (heap st) (next st) (rand st) (S (drawn st))).
End Store.
Arguments state : clear implicits.
Arguments M : clear implicits.

Declare Scope py_scope.
Delimit Scope py_scope with py.
Notation "'let!' x ':=' m 'in' k" := (bind m (λ x, k))
  (at level 10, x name, m at level 200, k at level 200) : py_scope.

(** [[c for _ in range(n)]] *)
Fixpoint replicateM {F A} (n : nat) (c : M F A) : M F (list A) :=
  match n with
  | 0 => ret []
  | S n' => (let! x := c in let! xs := replicateM n' c in ret (x :: xs))%py
  end.

(** [[f(a) for a in l]] with effects. *)
Fixpoint mapM {F A B} (f : A → M F B) (l : list A) : M F (list B) :=
  match l with
  | [] => ret []
  | a :: l' => (let! y := f a in let! ys := mapM f l' in ret (y :: ys))%py
  end.

(** [Value(d)]: a fresh object with [grad = 0]. *)
Definition new_Value `{Scalar F} (d : F) : M F loc :=
  λ st, (inr (next st),
         mkState (heap_set (heap st) (next st) (mkValue d Fzero))
                 (S (next st)) (rand st) (drawn st)).

(** [l[i]] on a list. *)
Definition py_index {A} (l : list A) (i : nat) : E A :=
  match l !! i with
  | Some a => inr a
  | None => inl IndexError
  end.

(** ** class Module *)

(** [Module.parameters] is overridden by every component; the class below
    is that interface.  [ArchitecturalModel.parameters] unpacks the
    entries of [self.layers] and can therefore raise. *)
Class Parameters (T : Type) := parameters : T → E (list loc).

Section Module_.
Context `{Scalar F}.

(** [p.grad = 0] *)
Definition set_grad_0 (h : loc → Value F) (p : loc) : loc → Value F :=
  heap_set h p (mkValue (data (h p)) Fzero).

(** [for p in self.parameters(): p.grad = 0] *)
Definition zero_grad `{Parameters T} (self : T) (h : loc → Value F) : E (loc → Value F) :=
  (try! ps := parameters self in
   inr (fold_left set_grad_0 ps h))%exn.
End Module_.

(** ** class Neuron *)

Module Neuron.
Record t := mk { w : list loc; b : loc; nonlin : bool }.

Section methods.
Context `{Scalar F}.

(** [self.w = [Value(random.uniform(-1,1)) for _ in range(nin)]],
    [self.b = Value(0)], [self.nonlin = nonlin] *)
Definition __init__ (nin : nat) (nl : bool) : M F t :=
  (let! ws := replicateM nin (let! u := random_uniform in new_Value u) in
   let! b0 := new_Value Fzero in
   ret (mk ws b0 nl))%py.

(** [sum((wi*xi for wi,xi in zip(self.w, x)), self.b)]: [sum] starts
    from [self.b] and adds the products from left to right; [zip]
    stops at the shorter of its two arguments. *)
Definition act (h : loc → Value F) (self : t) (xs : list F) : F :=
  fold_left Fadd
    (zip_with Fmul ((λ p, data (h p)) <$> w self) xs)
    (data (h (b self))).

(** [act.relu() if self.nonlin else act] *)
Definition out (h : loc → Value F) (self : t) (xs : list F) : F :=
  let a := act h self xs in
  if nonlin self then relu a else a.

(** [zip] raises at once on an argument that is no sequence. *)
Definition __call__ (h : loc → Value F) (self : t) (x : pyval F) : E F :=
  match x with
  | PList xs => inr (out h self xs)
  | PNone | PScalar _ => inl (TypeError NotIterable)
  end.

(** [self.w + [self.b]] *)
Definition parameters (self : t) : list loc := w self ++ [b self].

(** [f"{'ReLU' if self.nonlin else 'Linear'}Neuron({len(self.w)})"] *)
Definition __repr__ (self : t) : string :=
  (if nonlin self then "ReLU" else "Linear")
    +:+ "Neuron(" +:+ pretty (length (w self)) +:+ ")".
End methods.
End Neuron.

#[export] Instance Neuron_Parameters : Parameters Neuron.t :=
  λ self, inr (Neuron.parameters self).

(** ** class Layer and its two subclasses *)

(** [**kwargs] as forwarded to [Neuron.__init__], which accepts the one
    keyword [nonlin] (default [True]): either it is given or it is not. *)
Definition kwargs := option bool.

Module Layer.
Record t := mk { neurons : list Neuron.t }.

Section methods.
Context `{Scalar F}.

(** [Neuron(nin, **kwargs)] *)
Definition new_Neuron (nin : nat) (kw : kwargs) : M F Neuron.t :=
  Neuron.__init__ nin (default true kw).

(** [self.neurons = [Neuron(nin, **kwargs) for _ in range(nout)]] *)
Definition __init__ (nin nout : nat) (kw : kwargs) : M F t :=
  (let! ns := replicateM nout (new_Neuron nin kw) in
   ret (mk ns))%py.

(** [out = [n(x) for n in self.neurons]];
    [return out[0] if len(out) == 1 else out] *)
Definition __call__ (h : loc → Value F) (self : t) (x : pyval F) : E (pyval F) :=
  (try! out := emap (λ n, Neuron.__call__ h n x) (neurons self) in
   if decide (length out = 1)
   then try! v := py_index out 0 in inr (PScalar v)
   else inr (PList out))%exn.

(** [[p for n in self.neurons for p in n.parameters()]] *)
Definition parameters (self : t) : list loc :=
  neurons self ≫= Neuron.parameters.

(** [f"Layer of [{', '.join(str(n) for n in self.neurons)}]"] *)
Definition __repr__ (self : t) : string :=
  "Layer of [" +:+ String.concat ", " (Neuron.__repr__ <$> neurons self) +:+ "]".
End methods.
End Layer.

#[export] Instance Layer_Parameters : Parameters Layer.t :=
  λ self, inr (Layer.parameters self).

Module ConjoinLayer.
Section methods.
Context `{Scalar F}.

(** [self.neurons = [Neuron(len(l1.neurons) + len(l2.neurons), **kwargs)
                     for _ in range(nout)]] *)
Definition __init__ (l1 l2 : Layer.t) (nout : nat) (kw : kwargs) : M F Layer.t :=
  (let! ns := replicateM nout
       (Layer.new_Neuron (length (Layer.neurons l1) + length (Layer.neurons l2)) kw) in
   ret (Layer.mk ns))%py.
End methods.
End ConjoinLayer.

Module RegisterConjoinLayer.
Section methods.
Context `{Scalar F}.

(** [self.neurons = [Neuron(nin1 + nin2, **kwargs) for _ in range(nout)]] *)
Definition __init__ (nin1 nin2 nout : nat) (kw : kwargs) : M F Layer.t :=
  (let! ns := replicateM nout (Layer.new_Neuron (nin1 + nin2) kw) in
   ret (Layer.mk ns))%py.
End methods.
End RegisterConjoinLayer.

(** ** class MLP *)

Module MLP.
Record t := mk { layers : list Layer.t }.

Section methods.
Context `{Scalar F}.

(** [Layer(sz[i], sz[i+1], nonlin=i!=len(nouts)-1)] *)
Definition new_Layer (sz nouts : list nat) (i : nat) : M F Layer.t :=
  (let! a := lift (py_index sz i) in
   let! c := lift (py_index sz (i + 1)) in
   Layer.__init__ a c
     (Some (bool_decide (Z.of_nat i ≠ (Z.of_nat (length nouts) - 1)%Z))))%py.

(** [sz = [nin] + nouts];
    [self.layers = [Layer(...) for i in range(len(nouts))]] *)
Definition __init__ (nin : nat) (nouts : list nat) : M F t :=
  let sz := [nin] ++ nouts in
  (let! ls := mapM (new_Layer sz nouts) (seq 0 (length nouts)) in
   ret (mk ls))%py.

(** [for layer in self.layers: x = layer(x)]; [return x] *)
Fixpoint run (h : loc → Value F) (ls : list Layer.t) (x : pyval F) : E (pyval F) :=
  match ls with
  | [] => inr x
  | layer :: ls' =>
      (try! x' := Layer.__call__ h layer x in
       run h ls' x')%exn
  end.

Definition __call__ (h : loc → Value F) (self : t) (x : pyval F) : E (pyval F) :=
  run h (layers self) x.

(** [[p for layer in self.layers for p in layer.parameters()]] *)
Definition parameters (self : t) : list loc :=
  layers self ≫= Layer.parameters.

(** [f"MLP of [{', '.join(str(layer) for layer in self.layers)}]"] *)
Definition __repr__ (self : t) : string :=
  "MLP of [" +:+ String.concat ", " (Layer.__repr__ <$> layers self) +:+ "]".
End methods.
End MLP.

#[export] Instance MLP_Parameters : Parameters MLP.t :=
  λ self, inr (MLP.parameters self).

(** ** class ArchitecturalModel *)

(** An input register spec: "either a single string or a list of two
    strings"; [isinstance(rin, list)] tells the two apart. *)
Inductive rspec :=
  | RName (r : string)
  | RList (rs : list string).

(** One element [(register_in, nneurons, register_out, kwargs)] of the
    architecture. *)
Record step := mkStep { rin : rspec; nn : nat; rout : string; kwa : kwargs }.

(** What [self.layers] can hold: the bare layer that line 109 appends, or
    a triple [(rin, layer, rout)] as [__call__] and [parameters] unpack
    it. *)
Inductive entry :=
  | Bare (layer : Layer.t)
  | Triple (rin : rspec) (layer : Layer.t) (rout : string).

(** [d[k]] on a dict with string keys. *)
Definition dict_get {V} (d : gmap string V) (k : string) : E V :=
  match d !! k with
  | Some v => inr v
  | None => inl (KeyError k)
  end.

(** [d[rin]] where [rin] is a register spec: a list is not hashable. *)
Definition dict_get_spec {V} (d : gmap string V) (k : rspec) : E V :=
  match k with
  | RName r => dict_get d r
  | RList _ => inl (TypeError Unhashable)
  end.

(** [l.append(x)] *)
Definition list_append {A} (l : list A) (x : A) : E (list A) := inr (l ++ [x]).

(** [l.append(x, y, z)]: [list.append] takes exactly one argument, so
    the call raises once its three arguments are evaluated. *)
Definition list_append3 {A X Y Z} (l : list A) (x : X) (y : Y) (z : Z) : E (list A) :=
  inl (TypeError (AppendArity 3)).

Module ArchitecturalModel.
Record t (F : Type) := mk {
  registers : gmap string (pyval F);
  layers : list entry
}.
Arguments mk {F} _ _.
Arguments registers {F} _.
Arguments layers {F} _.

(** Lines 96-102, the register-width pass:
    [for rin, nn, rout, kwa in architecture:
       if rout not in register_sizes: register_sizes[rout] = nn
       else: if register_sizes[rout] != nn: raise ValueError(...)] *)
Fixpoint infer_sizes (architecture : list step) (register_sizes : gmap string nat)
    : E (gmap string nat) :=
  match architecture with
  | [] => inr register_sizes
  | s :: rest =>
      match register_sizes !! rout s with
      | None => infer_sizes rest (<[rout s := nn s]> register_sizes)
      | Some expected =>
          if decide (expected ≠ nn s)
          then inl (ValueError (WidthMismatch (rout s) (nn s) expected))
          else infer_sizes rest register_sizes
      end
  end.

Section methods.
Context `{Scalar F}.

(** Lines 106-109, the body of [if(isinstance(rin, list))]. *)
Definition conjoin_branch (register_sizes : gmap string nat) (s : step)
    (rs : list string) (layers : list entry) : M F (list entry) :=
  if decide (length rs ≠ 2) then raise (ValueError InputSpec)
  else
    (let! r0 := lift (py_index rs 0) in
     let! n0 := lift (dict_get register_sizes r0) in
     let! r1 := lift (py_index rs 1) in
     let! n1 := lift (dict_get register_sizes r1) in
     let! no := lift (dict_get register_sizes (rout s)) in
     let! l := RegisterConjoinLayer.__init__ n0 n1 no (kwa s) in
     lift (list_append layers (Bare l)))%py.

(** Line 110, which follows the [if] without an [else]:
    [self.layers.append(rin, Layer(register_sizes[rin],
                                   register_sizes[rout], **kwa), rout)] *)
Definition plain_line (register_sizes : gmap string nat) (s : step)
    (layers : list entry) : M F (list entry) :=
  (let! ni := lift (dict_get_spec register_sizes (rin s)) in
   let! no := lift (dict_get register_sizes (rout s)) in
   let! l := Layer.__init__ ni no (kwa s) in
   lift (list_append3 layers (rin s) l (rout s)))%py.

(** Lines 104-110, the layer pass. *)
Fixpoint build_layers (register_sizes : gmap string nat) (architecture : list step)
    (layers : list entry) : M F (list entry) :=
  match architecture with
  | [] => ret layers
  | s :: rest =>
      (let! layers1 :=
         match rin s with
         | RList rs => conjoin_branch register_sizes s rs layers
         | RName _ => ret layers
         end in
       let! layers2 := plain_line register_sizes s layers1 in
       build_layers register_sizes rest layers2)%py
  end.

(** [self.registers = {"I": None, "O": None}];
    [self.registers.update({r: None for r in registers})] *)
Definition init_registers (registers : list string) : gmap string (pyval F) :=
  list_to_map ((λ r, (r, PNone)) <$> registers)
    ∪ <["I" := PNone]> (<["O" := PNone]> ∅).

Definition __init__ (nin : nat) (registers : list string) (architecture : list step)
    : M F (t F) :=
  let regs := init_registers registers in
  (let! register_sizes := lift (infer_sizes architecture (<["I" := nin]> ∅)) in
   let! layers := build_layers register_sizes architecture [] in
   ret (mk regs layers))%py.

(** [a + b] on register contents: lists concatenate, two [Value]s
    add, anything else is a [TypeError]. *)
Definition py_add (a c : pyval F) : E (pyval F) :=
  match a, c with
  | PList xs, PList ys => inr (PList (xs ++ ys))
  | PScalar u, PScalar v => inr (PScalar (Fadd u v))
  | _, _ => inl (TypeError BadOperand)
  end.

(** Lines 116-119: the input of one step. *)
Definition read_input (registers : gmap string (pyval F)) (rin : rspec) : E (pyval F) :=
  match rin with
  | RList rs =>
      (try! r0 := py_index rs 0 in
       try! v0 := dict_get registers r0 in
       try! r1 := py_index rs 1 in
       try! v1 := dict_get registers r1 in
       py_add v0 v1)%exn
  | RName r => dict_get registers r
  end.

(** Lines 115-120: [for rin, layer, rout in self.layers: ...]. *)
Fixpoint run (h : loc → Value F) (layers : list entry)
    (registers : gmap string (pyval F)) : E (gmap string (pyval F)) :=
  match layers with
  | [] => inr registers
  | Bare _ :: _ => inl (TypeError CannotUnpack)
  | Triple rin layer rout :: rest =>
      (try! input := read_input registers rin in
       try! y := Layer.__call__ h layer input in
       run h rest (<[rout := y]> registers))%exn
  end.

(** [registers = copy.copy(self.registers)]; [registers["I"] = x];
    the loop; [return registers["O"]] *)
Definition __call__ (h : loc → Value F) (self : t F) (x : pyval F) : E (pyval F) :=
  let registers := <["I" := x]> (registers self) in
  (try! registers' := run h (layers self) registers in
   dict_get registers' "O")%exn.

(** [[p for _, layer, _ in self.layers for p in layer.parameters()]] *)
Fixpoint parameters_of (layers : list entry) : E (list loc) :=
  match layers with
  | [] => inr []
  | Bare _ :: _ => inl (TypeError CannotUnpack)
  | Triple _ layer _ :: rest =>
      (try! ps := parameters_of rest in
       inr (Layer.parameters layer ++ ps))%exn
  end.

Definition parameters (self : t F) : E (list loc) := parameters_of (layers self).
End methods.
End ArchitecturalModel.

#[export] Instance ArchitecturalModel_Parameters {F} : Parameters (ArchitecturalModel.t F) :=
  ArchitecturalModel.parameters.

(** ** Specification-side definitions *)

Section SpecSide.
Context `{Scalar F}.

(** What [sum(products, start)] returns: the start value plus the
    products, added one at a time from left to right,
    [((b + w_1*x_1) + w_2*x_2) + ...]. *)
Definition accumulate (ws xs : list F) (start : F) : F :=
  fold_left Fadd (zip_with Fmul ws xs) start.

(** The affine sum [sum_i (w_i * x_i) + b] as the specification writes
    it: the products are summed on their own, from [0], and the bias is
    added last.  (The code folds from the bias; see [Neuron.act].) *)
Definition sum_list (l : list F) : F := foldr Fadd Fzero l.
Definition dot (ws xs : list F) : F := sum_list (zip_with Fmul ws xs).
Definition affine (ws xs : list F) (bias : F) : F := Fadd (dot ws xs) bias.

(** The weights and the bias a neuron currently holds. *)
Definition weights (h : loc → Value F) (n : Neuron.t) : list F :=
  (λ p, data (h p)) <$> Neuron.w n.
Definition bias (h : loc → Value F) (n : Neuron.t) : F := data (h (Neuron.b n)).

(** "returns 0 whenever that affine sum is <= 0 and the unmodified
    affine sum otherwise" *)
Definition clamp (a : F) : F := if Fle a Fzero then Fzero else a.

(** A manually nested sequence of standalone layers,
    [l_k(... l_2(l_1(x)) ...)]: the innermost call is the first layer. *)
Definition nested (h : loc → Value F) (ls : list Layer.t) (x : pyval F) : E (pyval F) :=
  foldr (λ l inner, try! v := inner in Layer.__call__ h l v)%exn (inr x) (reverse ls).

(** The layers of a stack built one by one, as standalone [Layer]s:
    widths [nin -> n1], [n1 -> n2], ..., nonlinear unless nothing
    follows. *)
Fixpoint standalone_layers (nin : nat) (nouts : list nat) : M F (list Layer.t) :=
  match nouts with
  | [] => ret []
  | n :: rest =>
      (let! l := Layer.__init__ nin n (Some (bool_decide (rest ≠ []))) in
       let! ls := standalone_layers n rest in
       ret (l :: ls))%py
  end.
End SpecSide.

(** The width on record for register [r] once the steps [pre] have been
    read: [nin] for ["I"], otherwise the width declared by the first step
    of [pre] that writes [r]. *)
Fixpoint first_declared (pre : list step) (r : string) : option nat :=
  match pre with
  | [] => None
  | s :: rest => if decide (rout s = r) then Some (nn s) else first_declared rest r
  end.

Definition recorded (nin : nat) (pre : list step) (r : string) : option nat :=
  if decide (r = "I") then Some nin else first_declared pre r.

(** "some output register appears as the output of two steps with two
    different declared widths" *)
Definition conflicting (architecture : list step) (r : string) (a c : nat) : Prop :=
  ∃ i j si sj, architecture !! i = Some si ∧ architecture !! j = Some sj ∧
    rout si = r ∧ rout sj = r ∧ nn si = a ∧ nn sj = c ∧ a ≠ c.

(** The message "names that register and both conflicting widths": it
    carries a register that two steps write with different widths, and
    those two widths (in either order, [conflicting] being symmetric). *)
Definition names_a_conflict (architecture : list step) (e : exn) : Prop :=
  ∃ r a c, conflicting architecture r a c ∧ e = ValueError (WidthMismatch r a c).

(** An input spec that is "neither a single register name nor exactly a
    two-element sequence of register names". *)
Definition bad_spec (r : rspec) : Prop :=
  match r with
  | RName _ => False
  | RList rs => length rs ≠ 2
  end.

(** The architecture of the docstring's split layer, with [{}] for every
    [kwargs]:
    [[("I", 4, "r0", {}), ("I", 4, "r1", {}), (["r0", "r1"], 4, "O", {})]] *)
Definition split_architecture : list step :=
  [ mkStep (RName "I") 4 "r0" None;
    mkStep (RName "I") 4 "r1" None;
    mkStep (RList ["r0"; "r1"]) 4 "O" None ].

(** What a constructor run from [st] to [st'] does to the store when it
    creates the objects [ps] and draws [draws] random numbers: the
    objects are the next free locations in order, the random source is
    advanced and otherwise the same, no object that existed is touched,
    and every new object has gradient [0]. *)
Definition built `{Scalar F} (st st' : state F) (ps : list loc) (draws : nat) : Prop :=
  ps = seq (next st) (length ps) ∧
  next st' = next st + length ps ∧
  drawn st' = drawn st + draws ∧
  rand st' = rand st ∧
  (∀ p, p < next st → heap st' p = heap st p) ∧
  (∀ p, p ∈ ps → grad (heap st' p) = Fzero).

(** The number of parameters and of random draws of a stack with widths
    [nin -> n1 -> n2 -> ...]: a layer [a -> n] has [n] neurons of [a]
    weights and one bias. *)
Fixpoint param_count (nin : nat) (nouts : list nat) : nat :=
  match nouts with
  | [] => 0
  | n :: rest => n * (nin + 1) + param_count n rest
  end.

Fixpoint draw_count (nin : nat) (nouts : list nat) : nat :=
  match nouts with
  | [] => 0
  | n :: rest => n * nin + draw_count n rest
  end.

(** The text [Layer.__repr__] gives for [nout] neurons of [nin] weights. *)
Definition layer_text (nin nout : nat) (nl : bool) : string :=
  "Layer of ["
    +:+ String.concat ", "
          (replicate nout ((if nl then "ReLU" else "Linear")
                             +:+ "Neuron(" +:+ pretty nin +:+ ")"))
    +:+ "]".

Fixpoint layer_texts (nin : nat) (nouts : list nat) : list string :=
  match nouts with
  | [] => []
  | n :: rest => layer_text nin n (bool_decide (rest ≠ [])) :: layer_texts n rest
  end.

(** A register graph that is a chain: the first layer reads [src], layer
    [k] writes the [k]-th name of [names] and layer [k+1] reads it, and
    the last layer writes [dst]. *)
Definition chain (src : string) (ls : list Layer.t) (names : list string) (dst : string)
    : list entry :=
  zip_with (λ l io, Triple (RName io.1) l io.2) ls (zip (src :: names) (names ++ [dst])).

(** The registers the steps of [self.layers] write. *)
Definition written (layers : list entry) : list string :=
  layers ≫= (λ e, match e with Bare _ => [] | Triple _ _ rout => [rout] end).

(** What one neuron, and the neurons of one layer, return on a list. *)
Definition outs `{Scalar F} (h : loc → Value F) (l : Layer.t) (xs : list F) : list F :=
  (λ n, Neuron.out h n xs) <$> Layer.neurons l.

(** The vector that reaches the end of the layers [ls] when every one of
    them hands a list on. *)
Definition feed `{Scalar F} (h : loc → Value F) (ls : list Layer.t) (xs : list F) : list F :=
  fold_left (λ acc l, outs h l acc) ls xs.

(** A computation that never ends in the register-spec error. *)
Definition no_spec_error {F A} (m : M F A) : Prop :=
  ∀ st st', m st ≠ (inl (ValueError InputSpec), st').

(** The three entries the docstring's split layer is meant to leave in
    [self.layers], in the shape [__call__] unpacks. *)
Definition split_layers (l0 l1 l2 : Layer.t) : list entry :=
  [ Triple (RName "I") l0 "r0";
    Triple (RName "I") l1 "r1";
    Triple (RList ["r0"; "r1"]) l2 "O" ].

(** Python ints are a carrier of scalars, and their arithmetic is exact. *)
#[export] Instance Z_Scalar : Scalar Z := {|
  Fzero := 0%Z; Fadd := Z.add; Fmul := Z.mul; Fle := Z.leb; Flt := Z.ltb
|}.

#[export] Instance Z_Exact : ExactArithmetic Z := {|
  Fadd_comm := Z.add_comm;
  Fadd_assoc := Z.add_assoc;
  Fadd_0_l := Z.add_0_l;
  Flt_nle := λ a c, Z.ltb_antisym c a
|}.

(** Python floats (IEEE binary64, round to nearest even) are a carrier of
    scalars: what [random.uniform] returns and every weight holds. *)
Module Float64.
Import PrimFloat.

#[global] Instance Float_Scalar : Scalar float := {|
  Fzero := 0%float; Fadd := add; Fmul := mul; Fle := leb; Flt := ltb
|}.

Definition one : float := 1%float.
Definition ten_to_16 : float := 1e16%float.
Definition ten_to_16_plus_2 : float := 1.0000000000000002e16%float.
End Float64.

(** A store to run examples in: every object holds [0], and the random
    source returns [1, -1, 0, 1, -1, 0, ...]. *)
Definition st0 : state Z :=
  mkState (λ _, mkValue 0%Z 0%Z) 0
          (λ k, match k `mod` 3 with 0 => 1%Z | 1 => (-1)%Z | _ => 0%Z end) 0.

(** * Properties *)

(** ** Neurons *)

Section NeuronFacts.
Context `{Scalar F}.
Implicit Types (h : loc → Value F) (n : Neuron.t) (xs ws : list F).

Lemma zip_with_take_min {A B C} (f : A → B → C) (l : list A) (k : list B) :
  zip_with f (take (length l `min` length k) l) (take (length l `min` length k) k)
  = zip_with f l k.
Proof.
  revert k. induction l as [|a l IH]; intros [|c k]; simpl; try done.
  by rewrite IH.
Qed.

Lemma act_accumulate h n xs :
  Neuron.act h n xs = accumulate (weights h n) xs (bias h n).
Proof. reflexivity. Qed.

Lemma out_take_min h n xs :
  let m := length (Neuron.w n) `min` length xs in
  Neuron.out h n xs
  = Neuron.out h (Neuron.mk (take m (Neuron.w n)) (Neuron.b n) (Neuron.nonlin n)) (take m xs).
Proof.
  intros m. unfold Neuron.out, Neuron.act. simpl.
  rewrite fmap_take. unfold m.
  rewrite <- (length_fmap (λ p, data (h p)) (Neuron.w n)).
  by rewrite zip_with_take_min.
Qed.

Section Exact.
Context `{!ExactArithmetic F}.

Lemma fold_left_Fadd_start (l : list F) (a : F) :
  fold_left Fadd l a = Fadd (sum_list l) a.
Proof.
  revert a. induction l as [|y l IH]; intros a; simpl.
  - by rewrite Fadd_0_l.
  - rewrite IH, (Fadd_comm y (sum_list l)), <- (Fadd_assoc (sum_list l) y a).
    f_equal. apply Fadd_comm.
Qed.

Lemma act_affine h n xs :
  Neuron.act h n xs = affine (weights h n) xs (bias h n).
Proof. unfold Neuron.act, affine, dot, weights, bias. apply fold_left_Fadd_start. Qed.

Lemma relu_clamp (a : F) : relu a = clamp a.
Proof. unfold relu, clamp. rewrite Flt_nle. by destruct (Fle a Fzero). Qed.

Lemma out_affine h n xs :
  Neuron.out h n xs =
  let a := affine (weights h n) xs (bias h n) in
  if Neuron.nonlin n then clamp a else a.
Proof. unfold Neuron.out. by rewrite relu_clamp, act_affine. Qed.
End Exact.

Lemma replicateM_length {A} (c : M F A) (k : nat) st l st' :
  replicateM k c st = (inr l, st') → length l = k.
Proof.
  revert st l st'. induction k as [|k IH]; intros st l st'; simpl.
  - unfold ret. by intros [= <- _].
  - unfold bind. destruct (c st) as [[e|a] st1]; [done|].
    destruct (replicateM k c st1) as [[e|l1] st2] eqn:Hk; [done|].
    unfold ret. intros [= <- _]. simpl. f_equal. eauto.
Qed.

Lemma replicateM_total {A} (c : M F A) (k : nat) :
  (∀ st, ∃ a st', c st = (inr a, st')) →
  ∀ st, ∃ l st', replicateM k c st = (inr l, st').
Proof.
  intros Hc. induction k as [|k IH]; intros st; simpl.
  - by eexists _, _.
  - unfold bind. destruct (Hc st) as (a & st1 & ->).
    destruct (IH st1) as (l & st2 & ->). by eexists _, _.
Qed.

Lemma replicateM_Forall {A} (c : M F A) (P : A → Prop) (k : nat) st l st' :
  (∀ st a st', c st = (inr a, st') → P a) →
  replicateM k c st = (inr l, st') → Forall P l.
Proof.
  intros Hc. revert st l st'. induction k as [|k IH]; intros st l st'; simpl.
  - unfold ret. intros [= <- _]. constructor.
  - unfold bind. destruct (c st) as [[e|a] st1] eqn:Ha; [done|].
    destruct (replicateM k c st1) as [[e|l1] st2] eqn:Hk; [done|].
    unfold ret. intros [= <- _]. constructor; eauto.
Qed.

Lemma bind_inr {A B} (m : M F A) (k : A → M F B) st a st1 :
  m st = (inr a, st1) → bind m k st = k a st1.
Proof. unfold bind. by intros ->. Qed.

Lemma Neuron_init_total nin nl (st : state F) :
  ∃ n st', Neuron.__init__ nin nl st = (inr n, st').
Proof.
  unfold Neuron.__init__.
  destruct (replicateM_total (let! u := random_uniform in new_Value u)%py nin) with (st := st)
    as (ws & st1 & Hws).
  { intros s. by eexists _, _. }
  rewrite (bind_inr _ _ _ _ _ Hws). by eexists _, _.
Qed.

Lemma Neuron_init_shape nin nl (st : state F) n st' :
  Neuron.__init__ nin nl st = (inr n, st') →
  length (Neuron.w n) = nin ∧ Neuron.nonlin n = nl.
Proof.
  unfold Neuron.__init__, bind.
  destruct (replicateM nin _ st) as [[e|ws] st1] eqn:Hw; [done|].
  simpl. unfold ret. intros [= <- _]. simpl. split; [|done].
  by eapply replicateM_length.
Qed.
End NeuronFacts.

(** C5, as amended.  A neuron applied to a sequence [xs] returns the
    value accumulated from the bias, [((b + w_1*x_1) + w_2*x_2) + ...],
    added from left to right in the arithmetic of the scalars: as it is
    when [nonlin] is false, and when [nonlin] is true the value itself if
    it is [> 0] and [0] if it is not.  Where that arithmetic is exact this
    is the affine sum [sum_i (w_i * x_i) + b], resp. [0] if that sum is
    [<= 0] and the sum unchanged otherwise. *)
Theorem Neuron_call_affine `{Scalar F} (h : loc → Value F) (n : Neuron.t) (xs : list F) :
  Neuron.__call__ h n (PList xs) =
    inr (let a := accumulate (weights h n) xs (bias h n) in
         if Neuron.nonlin n then (if Flt Fzero a then a else Fzero) else a) ∧
  (ExactArithmetic F →
   Neuron.__call__ h n (PList xs) =
     inr (let a := affine (weights h n) xs (bias h n) in
          if Neuron.nonlin n then (if Fle a Fzero then Fzero else a) else a)).
Proof.
  split; [reflexivity|].
  intros HE. simpl. by rewrite out_affine.
Qed.

Lemma Neuron_call_affine_witness :
  let n := Neuron.mk [0; 1] 2 true in
  let h : loc → Value Z := λ p, mkValue (Z.of_nat p - 3)%Z 0%Z in
  Neuron.__call__ h n (PList [5; 7]%Z) = inr 0%Z ∧
  Neuron.__call__ h n (PList [-5; -7]%Z) = inr 28%Z.
Proof.
  intros n h. split.
  - exact (proj2 (Neuron_call_affine h n [5; 7]%Z) Z_Exact).
  - exact (proj2 (Neuron_call_affine h n [-5; -7]%Z) Z_Exact).
Defined.

(** C5 as stated fails on floats, which is what every weight holds: with
    weights [1.0, 1.0], bias [1e16] and input [1.0, 1.0] the neuron
    returns [1e16] (each [1e16 + 1.0] rounds back to [1e16]), while
    [sum_i (w_i * x_i) + b] is [2.0 + 1e16 = 1.0000000000000002e16]. *)
Lemma Neuron_call_float_rounding :
  let n := Neuron.mk [0; 1] 2 false in
  let h : loc → Value PrimFloat.float :=
    λ p, mkValue (if decide (p = 2) then Float64.ten_to_16 else Float64.one) Float64.one in
  let xs := [Float64.one; Float64.one] in
  Neuron.__call__ h n (PList xs) = inr Float64.ten_to_16 ∧
  affine (weights h n) xs (bias h n) = Float64.ten_to_16_plus_2 ∧
  Neuron.__call__ h n (PList xs) ≠ inr (affine (weights h n) xs (bias h n)).
Proof.
  intros n h xs.
  assert (Neuron.__call__ h n (PList xs) = inr Float64.ten_to_16) as Hcall
    by (vm_compute; reflexivity).
  assert (affine (weights h n) xs (bias h n) = Float64.ten_to_16_plus_2) as Haff
    by (vm_compute; reflexivity).
  split; [exact Hcall|]. split; [exact Haff|].
  rewrite Hcall, Haff. intros Heq.
  apply (f_equal (λ r : E PrimFloat.float,
                    match r with
                    | inr v => PrimFloat.eqb v Float64.ten_to_16
                    | inl _ => false
                    end)) in Heq.
  vm_compute in Heq. discriminate.
Qed.

(** C8. When the input is longer or shorter than the weight list the call
    does not raise: it returns what the neuron cut down to its first
    [min (len w) (len xs)] weights returns on the first
    [min (len w) (len xs)] inputs, that is the bias plus the products of
    those pairs, through relu if the neuron is nonlinear; what lies beyond
    that index, on either side, has no influence on the result. *)
Theorem Neuron_call_truncates `{Scalar F} (h : loc → Value F) (n : Neuron.t) (xs : list F) :
  length xs ≠ length (Neuron.w n) →
  let m := length (Neuron.w n) `min` length xs in
  let a := accumulate (take m (weights h n)) (take m xs) (bias h n) in
  Neuron.__call__ h n (PList xs) = inr (if Neuron.nonlin n then relu a else a) ∧
  Neuron.__call__ h n (PList xs)
  = inr (Neuron.out h (Neuron.mk (take m (Neuron.w n)) (Neuron.b n) (Neuron.nonlin n))
                    (take m xs)).
Proof.
  intros _ m a. simpl. rewrite (out_take_min h n xs). fold m. split; [|done].
  unfold Neuron.out. rewrite act_accumulate. unfold a, weights, bias. simpl.
  by rewrite fmap_take.
Qed.

Lemma Neuron_call_truncates_witness :
  let n := Neuron.mk [0; 1; 2] 3 true in
  let h : loc → Value Z := λ p, mkValue (Z.of_nat p + 1)%Z 0%Z in
  Neuron.__call__ h n (PList [5; 7]%Z) = inr 23%Z.
Proof.
  intros n h.
  exact (proj1 (Neuron_call_truncates h n [5; 7]%Z ltac:(simpl; lia))).
Defined.

(** ** Layers *)

Section LayerFacts.
Context `{Scalar F}.
Implicit Types (h : loc → Value F) (xs : list F).

Lemma emap_total {A B} (f : A → E B) (g : A → B) (l : list A) :
  (∀ a, f a = inr (g a)) → emap f l = inr (g <$> l).
Proof.
  intros Hf. induction l as [|a l IH]; simpl; [done|].
  by rewrite Hf, IH.
Qed.

Lemma Layer_call_list h (l : Layer.t) xs :
  Layer.__call__ h l (PList xs) =
  match Layer.neurons l with
  | [n] => inr (PScalar (Neuron.out h n xs))
  | ns => inr (PList ((λ n, Neuron.out h n xs) <$> ns))
  end.
Proof.
  unfold Layer.__call__.
  rewrite (emap_total _ (λ n, Neuron.out h n xs)) by done. simpl.
  destruct (Layer.neurons l) as [|n [|n' ns]]; simpl; try done.
Qed.

Lemma Layer_init_total nin nout kw (st : state F) :
  ∃ l st', Layer.__init__ nin nout kw st = (inr l, st').
Proof.
  unfold Layer.__init__.
  destruct (replicateM_total (Layer.new_Neuron nin kw) nout) with (st := st)
    as (ns & st1 & Hns).
  { intros s. apply Neuron_init_total. }
  rewrite (bind_inr _ _ _ _ _ Hns). by eexists _, _.
Qed.

Lemma Layer_init_shape nin nout kw (st : state F) l st' :
  Layer.__init__ nin nout kw st = (inr l, st') →
  length (Layer.neurons l) = nout ∧
  Forall (λ n, length (Neuron.w n) = nin ∧ Neuron.nonlin n = default true kw)
         (Layer.neurons l).
Proof.
  unfold Layer.__init__, bind.
  destruct (replicateM nout _ st) as [[e|ns] st1] eqn:Hns; [done|].
  unfold ret. intros [= <- _]. simpl. split.
  - by eapply replicateM_length.
  - eapply replicateM_Forall; [|exact Hns].
    intros s a s'. apply Neuron_init_shape.
Qed.

Lemma RegisterConjoinLayer_init_eq nin1 nin2 nout kw :
  RegisterConjoinLayer.__init__ (F:=F) nin1 nin2 nout kw = Layer.__init__ (nin1 + nin2) nout kw.
Proof. reflexivity. Qed.
End LayerFacts.

(** C4. A layer built with output width [nout] is built without error and
    has [nout] neurons.  Applied to an input vector of length [nin], it
    returns the one neuron's scalar itself when [nout = 1], and the list
    of the [nout] neurons' results, in neuron order, when [nout > 1]. *)
Theorem Layer_call_shape `{Scalar F} (nin nout : nat) (kw : kwargs) (st : state F)
    (h : loc → Value F) (xs : list F) :
  length xs = nin →
  ∃ l st', Layer.__init__ nin nout kw st = (inr l, st') ∧
    length (Layer.neurons l) = nout ∧
    (nout = 1 →
       ∃ n, Layer.neurons l = [n] ∧
            Layer.__call__ h l (PList xs) = inr (PScalar (Neuron.out h n xs))) ∧
    (1 < nout →
       Layer.__call__ h l (PList xs) =
         inr (PList ((λ n, Neuron.out h n xs) <$> Layer.neurons l)) ∧
       length ((λ n, Neuron.out h n xs) <$> Layer.neurons l) = nout).
Proof.
  intros _.
  destruct (Layer_init_total nin nout kw st) as (l & st' & Hl).
  exists l, st'. split; [done|].
  apply Layer_init_shape in Hl as [Hlen _]. split; [done|].
  rewrite Layer_call_list. split.
  - intros ->. destruct (Layer.neurons l) as [|n [|n' ns]]; try done. by exists n.
  - intros Hlt. rewrite length_fmap. split; [|done].
    destruct (Layer.neurons l) as [|n [|n' ns]]; simpl in *; try done; lia.
Qed.

Lemma Layer_call_shape_witness :
  let h := heap (Layer.__init__ 2 1 None st0).2 in
  length [3; 4]%Z = 2 ∧
  ∃ l st', Layer.__init__ 2 1 None st0 = (inr l, st') ∧
    length (Layer.neurons l) = 1 ∧
    (1 = 1 →
       ∃ n, Layer.neurons l = [n] ∧
            Layer.__call__ h l (PList [3; 4]%Z) = inr (PScalar (Neuron.out h n [3; 4]%Z))) ∧
    (1 < 1 →
       Layer.__call__ h l (PList [3; 4]%Z) =
         inr (PList ((λ n, Neuron.out h n [3; 4]%Z) <$> Layer.neurons l)) ∧
       length ((λ n, Neuron.out h n [3; 4]%Z) <$> Layer.neurons l) = 1).
Proof.
  intros h. split; [reflexivity|].
  apply (Layer_call_shape 2 1 None st0 h [3; 4]%Z). reflexivity.
Defined.

(** A one-neuron layer (weights [1, -1]) and a two-neuron layer (weights
    [1, -1] and [0, 1]), built from [st0] and run on the store they were
    built in. *)
Example Layer_one_neuron_runs :
  let '(r, st') := Layer.__init__ 2 1 (Some false) st0 in
  (try! l := r in Layer.__call__ (heap st') l (PList [3; 4]%Z))%exn = inr (PScalar (-1)%Z).
Proof. reflexivity. Qed.

Example Layer_two_neurons_run :
  let '(r, st') := Layer.__init__ 2 2 None st0 in
  (try! l := r in Layer.__call__ (heap st') l (PList [3; 4]%Z))%exn = inr (PList [0; 4]%Z).
Proof. reflexivity. Qed.

(** ** Multi-layer perceptrons *)

Section MLPFacts.
Context `{Scalar F}.
Implicit Types (h : loc → Value F) (x : pyval F) (ls : list Layer.t).

Lemma foldr_call_start h (e : E (pyval F)) ls :
  foldr (λ l inner, try! v := inner in Layer.__call__ h l v)%exn e ls
  = (try! x := e in
     foldr (λ l inner, try! v := inner in Layer.__call__ h l v)%exn (inr x) ls)%exn.
Proof.
  induction ls as [|l ls IH]; simpl.
  - by destruct e.
  - rewrite IH. by destruct e.
Qed.

Lemma run_nested h ls x : MLP.run h ls x = nested h ls x.
Proof.
  revert x. induction ls as [|l ls IH]; intros x; [done|].
  unfold nested. rewrite reverse_cons, foldr_app. simpl.
  rewrite foldr_call_start.
  destruct (Layer.__call__ h l x) as [e|x']; simpl; [done|].
  apply IH.
Qed.

Lemma py_index_app_r {A} (pre : list A) (a : A) (post : list A) :
  py_index (pre ++ a :: post) (length pre) = inr a.
Proof. unfold py_index. by rewrite list_lookup_middle. Qed.

(** The comprehension over [range(len(nouts))], started in the middle:
    the widths before position [length pre] are already consumed. *)
Lemma mapM_new_Layer pre nin nouts all (st : state F) :
  length all = length pre + length nouts →
  mapM (MLP.new_Layer (pre ++ nin :: nouts) all) (seq (length pre) (length nouts)) st
  = standalone_layers nin nouts st.
Proof.
  revert pre nin st. induction nouts as [|n rest IH]; intros pre nin st Hall; [done|].
  simpl in *. unfold bind at 1 3. unfold MLP.new_Layer at 1.
  unfold bind at 1. unfold lift at 1. rewrite py_index_app_r.
  unfold bind at 1. unfold lift at 1.
  replace (pre ++ nin :: n :: rest) with ((pre ++ [nin]) ++ n :: rest) at 1
    by (by rewrite <- app_assoc).
  replace (length pre + 1) with (length (pre ++ [nin])) by (rewrite length_app; simpl; lia).
  rewrite py_index_app_r.
  replace (bool_decide (Z.of_nat (length pre) ≠ (Z.of_nat (length all) - 1)%Z))
    with (bool_decide (rest ≠ [])).
  2:{ apply bool_decide_ext. split.
      - intros Hne Heq. destruct rest; [done|]. simpl in *. lia.
      - intros Hne ->. simpl in *. lia. }
  destruct (Layer.__init__ nin n _ st) as [[e|l] st1]; [done|].
  specialize (IH (pre ++ [nin]) n st1).
  rewrite length_app in IH. simpl in IH.
  replace (length pre + 1) with (S (length pre)) in IH by lia.
  rewrite <- app_assoc in IH. simpl in IH.
  unfold bind. rewrite IH by lia. done.
Qed.

Lemma MLP_init_standalone nin nouts (st : state F) :
  MLP.__init__ nin nouts st
  = (let! ls := standalone_layers nin nouts in ret (MLP.mk ls))%py st.
Proof.
  change (MLP.__init__ nin nouts st) with
    (bind (mapM (MLP.new_Layer ([] ++ nin :: nouts) nouts)
                (seq (length (@nil nat)) (length nouts)))
          (λ ls, ret (MLP.mk ls)) st).
  unfold bind. by rewrite (mapM_new_Layer [] nin nouts nouts st).
Qed.

Lemma standalone_total nin nouts (st : state F) :
  ∃ ls st', standalone_layers nin nouts st = (inr ls, st').
Proof.
  revert nin st. induction nouts as [|n rest IH]; intros nin st; simpl.
  - by eexists _, _.
  - destruct (Layer_init_total nin n (Some (bool_decide (rest ≠ []))) st) as (l & st1 & Hl).
    rewrite (bind_inr _ _ _ _ _ Hl).
    destruct (IH n st1) as (ls & st2 & Hls).
    rewrite (bind_inr _ _ _ _ _ Hls). by eexists _, _.
Qed.

Lemma standalone_shape nin nouts (st : state F) ls st' :
  standalone_layers nin nouts st = (inr ls, st') →
  length ls = length nouts ∧
  ∀ i l, ls !! i = Some l →
    nouts !! i = Some (length (Layer.neurons l)) ∧
    ∀ n, n ∈ Layer.neurons l →
      ([nin] ++ nouts) !! i = Some (length (Neuron.w n)) ∧
      Neuron.nonlin n = bool_decide (i ≠ length nouts - 1).
Proof.
  revert nin st ls st'. induction nouts as [|n rest IH]; intros nin st ls st'; simpl.
  - unfold ret. intros [= <- _]. split; [done|]. intros i l. by rewrite lookup_nil.
  - unfold bind.
    destruct (Layer.__init__ nin n _ st) as [[e|l0] st1] eqn:Hl0; [done|].
    destruct (standalone_layers n rest st1) as [[e|ls1] st2] eqn:Hls1; [done|].
    unfold ret. intros [= <- _].
    apply Layer_init_shape in Hl0 as [Hlen Hall].
    apply IH in Hls1 as [Hlen1 Hrest]. split; [simpl; lia|].
    intros [|i] l; simpl.
    + intros [= <-]. split; [by rewrite Hlen|].
      intros m Hm. rewrite Forall_forall in Hall.
      destruct (Hall m Hm) as [-> ->]. split; [done|]. simpl.
      apply bool_decide_ext. destruct rest; simpl; split; intros; try done; lia.
    + intros Hi. destruct (Hrest i l Hi) as [Hn Hns]. split; [done|].
      intros m Hm. destruct (Hns m Hm) as [Hw ->]. split; [done|].
      apply bool_decide_ext. apply lookup_lt_Some in Hi. lia.
Qed.
End MLPFacts.

(** C6. [MLP(nin, nouts)] is built without error and has one layer per
    entry of [nouts].  Layer [i] has [nouts[i]] neurons, each with
    [([nin] + nouts)[i]] weights, and each nonlinear exactly when [i] is
    not the last index [len(nouts) - 1]. *)
Theorem MLP_init_shape `{Scalar F} (nin : nat) (nouts : list nat) (st : state F) :
  ∃ m st', MLP.__init__ nin nouts st = (inr m, st') ∧
    length (MLP.layers m) = length nouts ∧
    ∀ i l, MLP.layers m !! i = Some l →
      nouts !! i = Some (length (Layer.neurons l)) ∧
      ∀ n, n ∈ Layer.neurons l →
        ([nin] ++ nouts) !! i = Some (length (Neuron.w n)) ∧
        Neuron.nonlin n = bool_decide (i ≠ length nouts - 1).
Proof.
  rewrite MLP_init_standalone.
  destruct (standalone_total nin nouts st) as (ls & st' & Hls).
  rewrite (bind_inr _ _ _ _ _ Hls). exists (MLP.mk ls), st'.
  split; [done|]. simpl. by eapply standalone_shape.
Qed.

(** C7. Evaluating a stack is evaluating the manually nested sequence of
    its layers, [l_k(... l_2(l_1(x)) ...)], errors included; and the
    layers the stack builds are those that standalone [Layer]
    constructions with the widths [nin -> n1 -> n2 -> ...] build, one
    after the other from the same random source: same widths, same
    nonlinearity flags, same weights. *)
Theorem MLP_call_nested `{Scalar F} (h : loc → Value F) (m : MLP.t) (x : pyval F) :
  MLP.__call__ h m x = nested h (MLP.layers m) x ∧
  ∀ nin nouts (st : state F),
    MLP.__init__ nin nouts st
    = (let! ls := standalone_layers nin nouts in ret (MLP.mk ls))%py st.
Proof.
  split.
  - apply run_nested.
  - apply MLP_init_standalone.
Qed.

(** [MLP(2, [2, 1])] built from [st0]: weights [1, -1 | 0, 1] then
    [-1, 0]; on [[3, 4]] the hidden layer gives [[0, 4]] and the linear
    output neuron [0]. *)
Example MLP_runs :
  let '(r, st') := MLP.__init__ 2 [2; 1] st0 in
  (try! m := r in MLP.__call__ (heap st') m (PList [3; 4]%Z))%exn = inr (PScalar 0%Z).
Proof. vm_compute. reflexivity. Qed.

(** A hidden layer of width one hands a bare scalar to the next layer,
    whose neurons cannot iterate over it. *)
Example MLP_hidden_width_one_raises :
  let '(r, st') := MLP.__init__ 2 [1; 1] st0 in
  (try! m := r in MLP.__call__ (heap st') m (PList [3; 4]%Z))%exn
  = inl (TypeError NotIterable).
Proof. vm_compute. reflexivity. Qed.

(** ** zero_grad *)

Section ZeroGradFacts.
Context `{Scalar F}.
Implicit Types (h : loc → Value F) (ps : list loc) (p q : loc).

Lemma set_grad_0_data h p q : data (set_grad_0 h p q) = data (h q).
Proof. unfold set_grad_0, heap_set. case_decide; by subst. Qed.

Lemma set_grad_0_grad_eq h p : grad (set_grad_0 h p p) = Fzero.
Proof. unfold set_grad_0, heap_set. by rewrite decide_True. Qed.

Lemma set_grad_0_ne h p q : q ≠ p → set_grad_0 h p q = h q.
Proof. intros Hne. unfold set_grad_0, heap_set. by rewrite decide_False. Qed.

Lemma sweep_data ps h q : data (fold_left set_grad_0 ps h q) = data (h q).
Proof.
  revert h. induction ps as [|p ps IH]; intros h; simpl; [done|].
  by rewrite IH, set_grad_0_data.
Qed.

Lemma sweep_other ps h q : q ∉ ps → fold_left set_grad_0 ps h q = h q.
Proof.
  revert h. induction ps as [|p ps IH]; intros h Hq; simpl; [done|].
  apply not_elem_of_cons in Hq as [Hne Hq].
  by rewrite IH, set_grad_0_ne.
Qed.

(** Once zeroed, a gradient stays zero for the rest of the sweep, also
    when the same object occurs in the list again. *)
Lemma sweep_keeps_zero ps h q : grad (h q) = Fzero → grad (fold_left set_grad_0 ps h q) = Fzero.
Proof.
  revert h. induction ps as [|p ps IH]; intros h Hq; simpl; [done|].
  apply IH. destruct (decide (q = p)) as [->|Hne].
  - apply set_grad_0_grad_eq.
  - by rewrite set_grad_0_ne.
Qed.

Lemma sweep_grad ps h p : p ∈ ps → grad (fold_left set_grad_0 ps h p) = Fzero.
Proof.
  revert h. induction ps as [|p' ps IH]; intros h Hp; simpl.
  - by apply elem_of_nil in Hp.
  - apply elem_of_cons in Hp as [->|Hp].
    + apply sweep_keeps_zero, set_grad_0_grad_eq.
    + by apply IH.
Qed.

Lemma zero_grad_sweep `{Parameters T} (self : T) h ps :
  parameters self = inr ps → zero_grad self h = inr (fold_left set_grad_0 ps h).
Proof. unfold zero_grad. by intros ->. Qed.

Lemma zero_grad_inv `{Parameters T} (self : T) h h' :
  zero_grad self h = inr h' →
  ∃ ps, parameters self = inr ps ∧ h' = fold_left set_grad_0 ps h.
Proof.
  unfold zero_grad. destruct (parameters self) as [e|ps]; simpl; [done|].
  intros [= <-]. by exists ps.
Qed.

(** The forward pass reads nothing but [data]. *)
Section SameData.
Variables h h' : loc → Value F.
Hypothesis Hdata : ∀ q, data (h' q) = data (h q).

Lemma Neuron_out_same_data n xs : Neuron.out h' n xs = Neuron.out h n xs.
Proof.
  unfold Neuron.out, Neuron.act. rewrite Hdata.
  by rewrite (list_fmap_ext (λ p, data (h' p)) (λ p, data (h p)) (Neuron.w n))
    by (intros; apply Hdata).
Qed.

Lemma Neuron_call_same_data n x : Neuron.__call__ h' n x = Neuron.__call__ h n x.
Proof. destruct x; simpl; try done. by rewrite Neuron_out_same_data. Qed.

Lemma Layer_call_same_data l x : Layer.__call__ h' l x = Layer.__call__ h l x.
Proof.
  unfold Layer.__call__.
  assert (emap (λ n, Neuron.__call__ h' n x) (Layer.neurons l)
          = emap (λ n, Neuron.__call__ h n x) (Layer.neurons l)) as ->; [|done].
  induction (Layer.neurons l) as [|n ns IH]; simpl; [done|].
  by rewrite Neuron_call_same_data, IH.
Qed.

Lemma MLP_call_same_data m x : MLP.__call__ h' m x = MLP.__call__ h m x.
Proof.
  unfold MLP.__call__. revert x.
  induction (MLP.layers m) as [|l ls IH]; intros x; simpl; [done|].
  rewrite Layer_call_same_data. destruct (Layer.__call__ h l x); simpl; [done|apply IH].
Qed.

Lemma ArchitecturalModel_call_same_data (a : ArchitecturalModel.t F) x :
  ArchitecturalModel.__call__ h' a x = ArchitecturalModel.__call__ h a x.
Proof.
  unfold ArchitecturalModel.__call__.
  generalize (<["I" := x]> (ArchitecturalModel.registers a)).
  induction (ArchitecturalModel.layers a) as [|[l|r l o] ls IH]; intros regs; simpl; [done..|].
  destruct (ArchitecturalModel.read_input regs r) as [e|v]; simpl; [done|].
  rewrite Layer_call_same_data. destruct (Layer.__call__ h l v); simpl; [done|].
  apply IH.
Qed.
End SameData.
End ZeroGradFacts.

(** C9. For a neuron, a layer, a stack and a register graph, and whatever
    the gradients were before, [zero_grad] leaves the gradient of every
    parameter listed by [parameters()] equal to [0].  (For a register
    graph [parameters()] itself can raise, on a malformed [self.layers];
    the statement is about the runs in which it returns.) *)
Theorem zero_grad_zeroes `{Scalar F} (h : loc → Value F) :
  (∀ n : Neuron.t, ∃ h', zero_grad n h = inr h' ∧
      ∀ p, p ∈ Neuron.parameters n → grad (h' p) = Fzero) ∧
  (∀ l : Layer.t, ∃ h', zero_grad l h = inr h' ∧
      ∀ p, p ∈ Layer.parameters l → grad (h' p) = Fzero) ∧
  (∀ m : MLP.t, ∃ h', zero_grad m h = inr h' ∧
      ∀ p, p ∈ MLP.parameters m → grad (h' p) = Fzero) ∧
  (∀ (a : ArchitecturalModel.t F) ps, ArchitecturalModel.parameters a = inr ps →
      ∃ h', zero_grad a h = inr h' ∧ ∀ p, p ∈ ps → grad (h' p) = Fzero).
Proof.
  repeat split.
  - intros n. exists (fold_left set_grad_0 (Neuron.parameters n) h).
    split; [done|]. intros p. apply sweep_grad.
  - intros l. exists (fold_left set_grad_0 (Layer.parameters l) h).
    split; [done|]. intros p. apply sweep_grad.
  - intros m. exists (fold_left set_grad_0 (MLP.parameters m) h).
    split; [done|]. intros p. apply sweep_grad.
  - intros a ps Hps. exists (fold_left set_grad_0 ps h).
    split; [by apply zero_grad_sweep|]. intros p. apply sweep_grad.
Qed.

(** C10. [zero_grad] writes nothing but [grad] fields of the component's
    parameters: the [data] of every object is what it was, objects that
    are no parameter of the component are untouched altogether, and every
    neuron, layer, stack and register graph (the component itself among
    them, whose weight lists, bias and layer list are the same locations as
    before) computes the same outputs after the call as before it. *)
Theorem zero_grad_frame `{Scalar F} `{Parameters T} (self : T) (h h' : loc → Value F) :
  zero_grad self h = inr h' →
  (∀ q, data (h' q) = data (h q)) ∧
  (∀ ps q, parameters self = inr ps → q ∉ ps → h' q = h q) ∧
  (∀ n, weights h' n = weights h n ∧ bias h' n = bias h n) ∧
  (∀ n x, Neuron.__call__ h' n x = Neuron.__call__ h n x) ∧
  (∀ l x, Layer.__call__ h' l x = Layer.__call__ h l x) ∧
  (∀ m x, MLP.__call__ h' m x = MLP.__call__ h m x) ∧
  (∀ (a : ArchitecturalModel.t F) x,
      ArchitecturalModel.__call__ h' a x = ArchitecturalModel.__call__ h a x).
Proof.
  intros (ps & Hps & ->)%zero_grad_inv.
  assert (∀ q, data (fold_left set_grad_0 ps h q) = data (h q)) as Hdata
    by (intros; apply sweep_data).
  split; [done|]. split.
  { intros ps' q. rewrite Hps. intros [= <-]. apply sweep_other. }
  split.
  { intros n. unfold weights, bias. split; [|done].
    apply list_fmap_ext. intros; apply Hdata. }
  split; [intros; by apply Neuron_call_same_data|].
  split; [intros; by apply Layer_call_same_data|].
  split; [intros; by apply MLP_call_same_data|].
  intros; by apply ArchitecturalModel_call_same_data.
Qed.

(** A neuron with weights at locations 0 and 1 and bias at 2, in a store
    where object [p] has data [p + 1] and gradient [7]. *)
Lemma zero_grad_frame_witness :
  let n := Neuron.mk [0; 1] 2 true in
  let h : loc → Value Z := λ p, mkValue (Z.of_nat p + 1)%Z 7%Z in
  let h' := fold_left set_grad_0 [0; 1; 2] h in
  zero_grad n h = inr h' ∧
  (∀ q, data (h' q) = data (h q)) ∧
  (∀ ps q, parameters n = inr ps → q ∉ ps → h' q = h q) ∧
  (∀ n, weights h' n = weights h n ∧ bias h' n = bias h n) ∧
  (∀ n x, Neuron.__call__ h' n x = Neuron.__call__ h n x) ∧
  (∀ l x, Layer.__call__ h' l x = Layer.__call__ h l x) ∧
  (∀ m x, MLP.__call__ h' m x = MLP.__call__ h m x) ∧
  (∀ (a : ArchitecturalModel.t Z) x,
      ArchitecturalModel.__call__ h' a x = ArchitecturalModel.__call__ h a x).
Proof.
  intros n h h'. split; [reflexivity|].
  apply (zero_grad_frame n h h'). reflexivity.
Defined.

Example zero_grad_runs :
  let n := Neuron.mk [0; 1] 2 true in
  let h : loc → Value Z := λ p, mkValue (Z.of_nat p + 1)%Z 7%Z in
  (try! h' := zero_grad n h in inr ((λ p, (data (h' p), grad (h' p))) <$> [0; 1; 2; 3]))%exn
  = inr [(1, 0); (2, 0); (3, 0); (4, 7)]%Z.
Proof. vm_compute. reflexivity. Qed.

(** ** The register graph: the register-width pass *)

Section InferSizes.
Import ArchitecturalModel.
Implicit Types (arch pre post : list step) (sizes : gmap string nat) (r : string).

Lemma infer_sizes_app pre post sizes :
  infer_sizes (pre ++ post) sizes
  = (try! sizes' := infer_sizes pre sizes in infer_sizes post sizes')%exn.
Proof.
  revert sizes. induction pre as [|s pre IH]; intros sizes; simpl; [done|].
  destruct (sizes !! rout s) as [e|]; [|apply IH].
  case_decide; [done|apply IH].
Qed.

(** A pass that ends without error has recorded, for every step, the
    width that step declares. *)
Lemma infer_sizes_ok arch sizes sizes' :
  infer_sizes arch sizes = inr sizes' →
  sizes ⊆ sizes' ∧ ∀ s, s ∈ arch → sizes' !! rout s = Some (nn s).
Proof.
  revert sizes. induction arch as [|s arch IH]; intros sizes; simpl.
  - intros [= <-]. split; [done|]. intros s Hs. by apply elem_of_nil in Hs.
  - destruct (sizes !! rout s) as [e|] eqn:Hr.
    + case_decide as Hne; [done|]. subst e.
      intros [Hsub Hall]%IH. split; [done|].
      intros s' [->|Hs']%elem_of_cons; [|by apply Hall].
      by eapply lookup_weaken.
    + intros [Hsub Hall]%IH. split.
      * etrans; [|exact Hsub]. by apply insert_subseteq.
      * intros s' [->|Hs']%elem_of_cons; [|by apply Hall].
        eapply lookup_weaken; [|exact Hsub]. apply lookup_insert_eq.
Qed.

Lemma infer_sizes_conflict arch sizes r a c :
  conflicting arch r a c → ∃ e, infer_sizes arch sizes = inl e.
Proof.
  intros (i & j & si & sj & Hi & Hj & Hri & Hrj & Ha & Hc & Hne).
  destruct (infer_sizes arch sizes) as [e|sizes'] eqn:Hinf; [by exists e|].
  apply infer_sizes_ok in Hinf as [_ Hall].
  pose proof (Hall si (list_elem_of_lookup_2 _ _ _ Hi)) as H1.
  pose proof (Hall sj (list_elem_of_lookup_2 _ _ _ Hj)) as H2.
  rewrite Hri in H1. rewrite Hrj in H2. congruence.
Qed.

(** A pass that raises stops at the first step whose width differs from
    the one on record, and reports that step. *)
Lemma infer_sizes_error arch sizes e :
  infer_sizes arch sizes = inl e →
  ∃ pre s post sizes' expected,
    arch = pre ++ s :: post ∧
    infer_sizes pre sizes = inr sizes' ∧
    sizes' !! rout s = Some expected ∧ expected ≠ nn s ∧
    e = ValueError (WidthMismatch (rout s) (nn s) expected).
Proof.
  revert sizes. induction arch as [|s arch IH]; intros sizes; simpl; [done|].
  destruct (sizes !! rout s) as [x|] eqn:Hr.
  - case_decide as Hne.
    + intros [= <-]. by exists [], s, arch, sizes, x.
    + intros (pre & s' & post & sizes' & x' & -> & Hpre & ? & ? & ->)%IH.
      exists (s :: pre), s', post, sizes', x'. simpl. rewrite Hr.
      split; [done|]. by case_decide.
  - intros (pre & s' & post & sizes' & x' & -> & Hpre & ? & ? & ->)%IH.
    exists (s :: pre), s', post, sizes', x'. simpl. by rewrite Hr.
Qed.

Lemma infer_sizes_lookup pre sizes sizes' r :
  infer_sizes pre sizes = inr sizes' →
  sizes' !! r = match sizes !! r with
                | Some n => Some n
                | None => first_declared pre r
                end.
Proof.
  revert sizes. induction pre as [|s pre IH]; intros sizes; simpl.
  - intros [= <-]. by destruct (sizes !! r).
  - destruct (sizes !! rout s) as [x|] eqn:Hr.
    + case_decide; [done|]. intros ->%IH.
      destruct (sizes !! r) eqn:Hr'; [done|].
      rewrite decide_False; [done|]. intros <-. congruence.
    + intros ->%IH. case_decide as Heq.
      * subst r. by rewrite lookup_insert_eq, Hr.
      * by rewrite lookup_insert_ne.
Qed.

Lemma infer_sizes_recorded nin pre sizes' r :
  infer_sizes pre (<["I" := nin]> ∅) = inr sizes' → sizes' !! r = recorded nin pre r.
Proof.
  intros ->%(infer_sizes_lookup _ _ _ r). unfold recorded.
  case_decide as Heq.
  - subst r. by rewrite lookup_insert_eq.
  - by rewrite lookup_insert_ne, lookup_empty.
Qed.

Lemma first_declared_Some pre r e :
  first_declared pre r = Some e →
  ∃ i si, pre !! i = Some si ∧ rout si = r ∧ nn si = e.
Proof.
  induction pre as [|s pre IH]; simpl; [done|].
  case_decide as Heq.
  - intros [= <-]. by exists 0, s.
  - intros (i & si & Hi & ? & ?)%IH. by exists (S i), si.
Qed.

(** Before the reported step, every step agrees with the record. *)
Lemma infer_sizes_prefix_agrees nin pre sizes' :
  infer_sizes pre (<["I" := nin]> ∅) = inr sizes' →
  ∀ p1 s p2 e, pre = p1 ++ s :: p2 → recorded nin p1 (rout s) = Some e → e = nn s.
Proof.
  intros Hpre p1 s p2 e -> Hrec.
  rewrite infer_sizes_app in Hpre.
  destruct (infer_sizes p1 (<["I" := nin]> ∅)) as [?|sz1] eqn:H1; [done|].
  rewrite <- (infer_sizes_recorded _ _ _ _ H1) in Hrec.
  simpl in Hpre. rewrite Hrec in Hpre. by case_decide.
Qed.
End InferSizes.

(** ** The register graph: the layer pass and construction *)

Section Construction.
Import ArchitecturalModel.
Context `{Scalar F}.
Implicit Types (arch : list step) (sizes : gmap string nat) (st : state F)
  (layers : list entry).

Lemma bind_cases {A B} (m : M F A) (k : A → M F B) st r st' :
  bind m k st = (r, st') →
  (∃ e, m st = (inl e, st') ∧ r = inl e) ∨
  (∃ a st1, m st = (inr a, st1) ∧ k a st1 = (r, st')).
Proof.
  unfold bind. destruct (m st) as [[e|a] st1].
  - intros [= <- <-]. left. by exists e.
  - intros Hk. right. by exists a, st1.
Qed.

Lemma no_spec_error_bind {A B} (m : M F A) (k : A → M F B) :
  no_spec_error m → (∀ a, no_spec_error (k a)) → no_spec_error (bind m k).
Proof.
  intros Hm Hk st st' [(e & Hme & [= <-])|(a & st1 & _ & Hka)]%bind_cases.
  - by eapply Hm.
  - by eapply Hk.
Qed.

Lemma no_spec_error_dict_get sizes r : no_spec_error (lift (F:=F) (dict_get sizes r)).
Proof. intros st st'. unfold lift, dict_get. by destruct (sizes !! r). Qed.

Lemma no_spec_error_py_index (rs : list string) i : no_spec_error (lift (F:=F) (py_index rs i)).
Proof. intros st st'. unfold lift, py_index. by destruct (rs !! i). Qed.

Lemma no_spec_error_Layer_init nin nout kw : no_spec_error (Layer.__init__ (F:=F) nin nout kw).
Proof.
  intros st st'. destruct (Layer_init_total nin nout kw st) as (l & st1 & ->). done.
Qed.

Lemma no_spec_error_plain_line sizes s layers : no_spec_error (plain_line sizes s layers).
Proof.
  unfold plain_line. apply no_spec_error_bind.
  { intros st st'. unfold lift, dict_get_spec, dict_get.
    destruct (rin s); [by destruct (sizes !! _)|done]. }
  intros ni. apply no_spec_error_bind; [apply no_spec_error_dict_get|].
  intros no. apply no_spec_error_bind; [apply no_spec_error_Layer_init|].
  intros l st st'. done.
Qed.

Lemma no_spec_error_conjoin_branch sizes s rs layers :
  length rs = 2 → no_spec_error (conjoin_branch sizes s rs layers).
Proof.
  intros Hlen. unfold conjoin_branch. rewrite decide_False by (by intros ?).
  apply no_spec_error_bind; [apply no_spec_error_py_index|]. intros r0.
  apply no_spec_error_bind; [apply no_spec_error_dict_get|]. intros n0.
  apply no_spec_error_bind; [apply no_spec_error_py_index|]. intros r1.
  apply no_spec_error_bind; [apply no_spec_error_dict_get|]. intros n1.
  apply no_spec_error_bind; [apply no_spec_error_dict_get|]. intros no.
  apply no_spec_error_bind; [apply no_spec_error_Layer_init|].
  intros l st st'. done.
Qed.

(** The register-spec error comes from a step whose input spec is a
    list of a length other than two. *)
Lemma build_layers_spec_error sizes arch layers st st' :
  build_layers sizes arch layers st = (inl (ValueError InputSpec), st') →
  ∃ s, s ∈ arch ∧ bad_spec (rin s).
Proof.
  revert layers st. induction arch as [|s arch IH]; intros layers st; simpl; [done|].
  destruct (rin s) as [r|rs] eqn:Hrin.
  - intros [(e & Hm & [= <-])|(l1 & st1 & _ & Hk)]%bind_cases; [done|].
    apply bind_cases in Hk as [(e & Hm & [= <-])|(l2 & st2 & _ & Hk)].
    + by apply no_spec_error_plain_line in Hm.
    + destruct (IH _ _ Hk) as (s' & Hs' & Hbad). exists s'. split; [by right|done].
  - destruct (decide (length rs = 2)) as [Hlen|Hlen].
    + intros [(e & Hm & [= <-])|(l1 & st1 & _ & Hk)]%bind_cases.
      { by apply no_spec_error_conjoin_branch in Hm. }
      apply bind_cases in Hk as [(e & Hm & [= <-])|(l2 & st2 & _ & Hk)].
      * by apply no_spec_error_plain_line in Hm.
      * destruct (IH _ _ Hk) as (s' & Hs' & Hbad). exists s'. split; [by right|done].
    + intros _. exists s. split; [by left|]. by rewrite Hrin.
Qed.

Lemma build_layers_bad_first sizes s rest layers st :
  bad_spec (rin s) →
  build_layers sizes (s :: rest) layers st = (inl (ValueError InputSpec), st).
Proof.
  simpl. destruct (rin s) as [r|rs]; [done|]. simpl. intros Hbad.
  unfold conjoin_branch. by rewrite decide_True.
Qed.

(** Line 110 raises whatever the step: [list.append] is handed three
    arguments (or, before that, the list [rin] is used as a key, or a
    register has no width on record). *)
Lemma plain_line_raises sizes s layers st :
  ∃ e st', plain_line sizes s layers st = (inl e, st').
Proof.
  unfold plain_line, bind, lift.
  destruct (dict_get_spec sizes (rin s)) as [e|ni]; [by eexists _, _|].
  destruct (dict_get sizes (rout s)) as [e|no]; [by eexists _, _|].
  destruct (Layer_init_total ni no (kwa s) st) as (l & st1 & ->).
  by eexists _, _.
Qed.

Lemma build_layers_cons_raises sizes s rest layers st :
  ∃ e st', build_layers sizes (s :: rest) layers st = (inl e, st').
Proof.
  simpl. unfold bind at 1.
  destruct (rin s) as [r|rs].
  - unfold ret, bind.
    destruct (plain_line_raises sizes s layers st) as (e & st2 & ->). by eexists _, _.
  - destruct (conjoin_branch sizes s rs layers st) as [[e|l1] st1]; [by eexists _, _|].
    unfold bind.
    destruct (plain_line_raises sizes s l1 st1) as (e & st2 & ->). by eexists _, _.
Qed.

Lemma init_pass1_error nin registers arch st e :
  infer_sizes arch (<["I" := nin]> ∅) = inl e →
  __init__ nin registers arch st = (inl e, st).
Proof. unfold __init__, bind, lift. by intros ->. Qed.

Lemma init_pass1_ok nin registers arch st sizes :
  infer_sizes arch (<["I" := nin]> ∅) = inr sizes →
  __init__ nin registers arch st
  = (let! layers := build_layers sizes arch [] in
     ret (mk (init_registers registers) layers))%py st.
Proof. unfold __init__, lift. intros Hs. unfold bind at 1. by rewrite Hs. Qed.

(** Whatever the architecture, as soon as it has a step the
    constructor raises. *)
Lemma init_nonempty_raises nin registers s rest st :
  ∃ e, (__init__ nin registers (s :: rest) st).1 = inl e.
Proof.
  destruct (infer_sizes (s :: rest) (<["I" := nin]> ∅)) as [e|sizes] eqn:Hs.
  - exists e. by rewrite (init_pass1_error _ _ _ _ _ Hs).
  - rewrite (init_pass1_ok _ _ _ _ _ Hs). unfold bind.
    destruct (build_layers_cons_raises sizes s rest [] st) as (e & st' & ->).
    by exists e.
Qed.
End Construction.

(** C1. The constructor does not accept the split architecture of its own
    docstring: with [nin = 4], [registers = ["r0", "r1"]] and the three
    steps of [split_architecture], the width pass succeeds, the first
    [Layer(4, 4)] is built, and [self.layers.append] is then called with
    three arguments, which raises [TypeError].  No model is returned, so
    there is nothing to evaluate. *)
Theorem split_model_construction_raises `{Scalar F} (st : state F) :
  (ArchitecturalModel.__init__ 4 ["r0"; "r1"] split_architecture st).1
  = inl (TypeError (AppendArity 3)).
Proof. vm_compute. reflexivity. Qed.

(** What the claim describes is what [__call__] does once [self.layers]
    holds the three intended triples: the last layer has neurons of eight
    weights, and a length-4 input yields a length-4 output. *)
Lemma split_layers_run `{Scalar F} (st : state F) (h : loc → Value F) (xs : list F) :
  ∃ l0 l1 l2 st',
    (let! l0 := Layer.__init__ 4 4 None in
     let! l1 := Layer.__init__ 4 4 None in
     let! l2 := RegisterConjoinLayer.__init__ 4 4 4 None in
     ret (l0, l1, l2))%py st = (inr (l0, l1, l2), st') ∧
    Forall (λ n, length (Neuron.w n) = 8) (Layer.neurons l2) ∧
    ∃ ys, ArchitecturalModel.__call__ h
            (ArchitecturalModel.mk (ArchitecturalModel.init_registers ["r0"; "r1"])
                                   (split_layers l0 l1 l2))
            (PList xs) = inr (PList ys) ∧
          length ys = 4.
Proof.
  destruct (Layer_init_total 4 4 None st) as (l0 & st1 & H0).
  destruct (Layer_init_total 4 4 None st1) as (l1 & st2 & H1).
  destruct (Layer_init_total (4 + 4) 4 None st2) as (l2 & st3 & H2).
  exists l0, l1, l2, st3. split.
  { rewrite (bind_inr _ _ _ _ _ H0), (bind_inr _ _ _ _ _ H1).
    by rewrite RegisterConjoinLayer_init_eq, (bind_inr _ _ _ _ _ H2). }
  apply Layer_init_shape in H0 as [Hn0 _].
  apply Layer_init_shape in H1 as [Hn1 _].
  apply Layer_init_shape in H2 as [Hn2 Hw2]. split.
  { eapply Forall_impl; [exact Hw2|]. by intros n [-> _]. }
  destruct l0 as [[|a0 [|a1 [|a2 [|a3 [|? ?]]]]]]; try done.
  destruct l1 as [[|c0 [|c1 [|c2 [|c3 [|? ?]]]]]]; try done.
  destruct l2 as [[|d0 [|d1 [|d2 [|d3 [|? ?]]]]]]; try done.
  eexists. split; [vm_compute; reflexivity|done].
Qed.

(** C2, as amended.  When some register is written by two steps with two
    different widths, construction raises the width-mismatch
    [ValueError] in the register-width pass: the store is as it was, no
    weight was drawn and no layer built.  The message names the output
    register of the first step [s] whose declared width differs from the
    width on record for its output register ([nin] for ["I"], otherwise
    the width of the first step that writes the register), with that
    step's width as "got" and the recorded width as "expected".  When no
    step writes ["I"], the register named is one that two steps write
    with exactly these two widths. *)
Theorem width_conflict_raises `{Scalar F} (nin : nat) (registers : list string)
    (architecture : list step) (r : string) (a c : nat) (st : state F) :
  conflicting architecture r a c →
  ∃ pre s post expected,
    architecture = pre ++ s :: post ∧
    recorded nin pre (rout s) = Some expected ∧ expected ≠ nn s ∧
    (∀ p1 s' p2 e,
        pre = p1 ++ s' :: p2 → recorded nin p1 (rout s') = Some e → e = nn s') ∧
    ArchitecturalModel.__init__ nin registers architecture st
    = (inl (ValueError (WidthMismatch (rout s) (nn s) expected)), st) ∧
    ((∀ s', s' ∈ architecture → rout s' ≠ "I") →
     names_a_conflict architecture (ValueError (WidthMismatch (rout s) (nn s) expected))).
Proof.
  intros Hconf.
  destruct (infer_sizes_conflict architecture (<["I" := nin]> ∅) r a c Hconf) as [e He].
  destruct (infer_sizes_error _ _ _ He)
    as (pre & s & post & sizes' & expected & -> & Hpre & Hlook & Hne & ->).
  exists pre, s, post, expected. split; [done|].
  split; [by rewrite <- (infer_sizes_recorded _ _ _ _ Hpre)|].
  split; [done|].
  split; [by eapply infer_sizes_prefix_agrees|].
  split; [by apply init_pass1_error|].
  intros HnoI. exists (rout s), (nn s), expected. split; [|done].
  rewrite (infer_sizes_recorded _ _ _ _ Hpre) in Hlook. unfold recorded in Hlook.
  rewrite decide_False in Hlook by (apply HnoI, elem_of_app; right; by left).
  apply first_declared_Some in Hlook as (i & si & Hi & Hri & Hni).
  exists (length pre), i, s, si.
  split; [by rewrite list_lookup_middle|].
  split; [by apply lookup_app_l_Some|]. done.
Qed.

Lemma width_conflict_raises_witness :
  let arch := [mkStep (RName "I") 4 "r0" None; mkStep (RName "I") 5 "r0" None] in
  conflicting arch "r0" 4 5 ∧
  ∃ pre s post expected,
    arch = pre ++ s :: post ∧
    recorded 4 pre (rout s) = Some expected ∧ expected ≠ nn s ∧
    (∀ p1 s' p2 e,
        pre = p1 ++ s' :: p2 → recorded 4 p1 (rout s') = Some e → e = nn s') ∧
    ArchitecturalModel.__init__ 4 [] arch st0
    = (inl (ValueError (WidthMismatch (rout s) (nn s) expected)), st0) ∧
    ((∀ s', s' ∈ arch → rout s' ≠ "I") →
     names_a_conflict arch (ValueError (WidthMismatch (rout s) (nn s) expected))).
Proof.
  intros arch.
  assert (conflicting arch "r0" 4 5) as Hconf.
  { exists 0, 1, (mkStep (RName "I") 4 "r0" None), (mkStep (RName "I") 5 "r0" None).
    repeat split; simpl; lia. }
  split; [exact Hconf|].
  exact (width_conflict_raises 4 [] arch "r0" 4 5 st0 Hconf).
Defined.

Example width_conflict_runs :
  (ArchitecturalModel.__init__ 4 []
     [mkStep (RName "I") 4 "r0" None; mkStep (RName "I") 5 "r0" None] st0).1
  = inl (ValueError (WidthMismatch "r0" 5 4)).
Proof. vm_compute. reflexivity. Qed.

(** C2 as stated fails when a step writes ["I"] with a width other than
    [nin]: here ["r0"] is written with widths 4 and 5, and the error
    names ["I"], 3 and 4.  ["I"] is written once only, so the message
    names no register that two steps write with different widths. *)
Lemma width_conflict_names_input_register :
  let arch := [mkStep (RName "I") 3 "I" None;
               mkStep (RName "I") 4 "r0" None;
               mkStep (RName "I") 5 "r0" None] in
  conflicting arch "r0" 4 5 ∧
  (ArchitecturalModel.__init__ 4 [] arch st0).1 = inl (ValueError (WidthMismatch "I" 3 4)) ∧
  ¬ names_a_conflict arch (ValueError (WidthMismatch "I" 3 4)).
Proof.
  intros arch. split; [|split].
  - exists 1, 2, (mkStep (RName "I") 4 "r0" None), (mkStep (RName "I") 5 "r0" None).
    repeat split; simpl; lia.
  - vm_compute. reflexivity.
  - intros (r & a & c & (i & j & si & sj & Hi & Hj & Hri & Hrj & Ha & Hc & _) & [= <- <- <-]).
    destruct j as [|[|[|j]]]; simpl in Hj; try done;
      injection Hj as <-; simpl in *; done.
Qed.

(** C3, as amended.  When the register-width pass raises nothing and the
    first step has a list of a length other than two as its input spec,
    construction raises the register-spec [ValueError]; and that error is
    raised only when some step has such an input spec, so never when every
    input spec is a single name or a list of two names. *)
Theorem input_spec_error `{Scalar F} (nin : nat) (registers : list string)
    (architecture : list step) (st : state F) :
  (∀ s rest sizes,
      architecture = s :: rest →
      ArchitecturalModel.infer_sizes architecture (<["I" := nin]> ∅) = inr sizes →
      bad_spec (rin s) →
      ArchitecturalModel.__init__ nin registers architecture st
      = (inl (ValueError InputSpec), st)) ∧
  ((ArchitecturalModel.__init__ nin registers architecture st).1 = inl (ValueError InputSpec) →
   ∃ s, s ∈ architecture ∧ bad_spec (rin s)).
Proof.
  split.
  - intros s rest sizes -> Hsizes Hbad.
    rewrite (init_pass1_ok _ _ _ _ _ Hsizes). unfold bind.
    by rewrite build_layers_bad_first.
  - destruct (ArchitecturalModel.infer_sizes architecture (<["I" := nin]> ∅))
      as [e|sizes] eqn:Hs.
    + rewrite (init_pass1_error _ _ _ _ _ Hs). simpl. intros [= ->].
      by apply infer_sizes_error in Hs as (? & ? & ? & ? & ? & _ & _ & _ & _ & ?).
    + rewrite (init_pass1_ok _ _ _ _ _ Hs).
      destruct (bind _ _ st) as [r st'] eqn:Hb. simpl. intros ->.
      apply bind_cases in Hb as [(e & Hm & [= <-])|(l & st1 & _ & Hk)]; [|done].
      by eapply build_layers_spec_error.
Qed.

Lemma input_spec_error_witness :
  let arch := [mkStep (RList ["a"; "b"; "c"]) 4 "O" None] in
  ArchitecturalModel.infer_sizes arch (<["I" := 4]> ∅) = inr (<["O" := 4]> (<["I" := 4]> ∅)) ∧
  bad_spec (RList ["a"; "b"; "c"]) ∧
  ArchitecturalModel.__init__ 4 [] arch st0 = (inl (ValueError InputSpec), st0).
Proof.
  intros arch.
  assert (ArchitecturalModel.infer_sizes arch (<["I" := 4]> ∅)
          = inr (<["O" := 4]> (<["I" := 4]> ∅))) as Hs by reflexivity.
  assert (bad_spec (RList ["a"; "b"; "c"])) as Hbad by (simpl; lia).
  split; [exact Hs|]. split; [exact Hbad|].
  exact (proj1 (input_spec_error 4 [] arch st0) _ _ _ eq_refl Hs Hbad).
Defined.

(** C3 as stated fails when the width pass raises first: the third step
    below has a three-element input spec, and the error is the
    width mismatch of the second step, not the register-spec error. *)
Lemma input_spec_error_preempted :
  let arch := [mkStep (RName "I") 4 "r0" None;
               mkStep (RName "I") 5 "r0" None;
               mkStep (RList ["a"; "b"; "c"]) 4 "O" None] in
  (∃ s, s ∈ arch ∧ bad_spec (rin s)) ∧
  (ArchitecturalModel.__init__ 4 [] arch st0).1 = inl (ValueError (WidthMismatch "r0" 5 4)) ∧
  (ArchitecturalModel.__init__ 4 [] arch st0).1 ≠ inl (ValueError InputSpec).
Proof.
  intros arch. split; [|split].
  - exists (mkStep (RList ["a"; "b"; "c"]) 4 "O" None). split.
    + do 2 right. by left.
    + simpl. lia.
  - vm_compute. reflexivity.
  - vm_compute. done.
Qed.

(** A register graph holding one well-formed triple: [parameters()]
    returns the layer's parameters and [zero_grad] zeroes their
    gradients; with a bare layer in [self.layers], [parameters()] raises
    and so does [zero_grad]. *)
Example zero_grad_graph_runs :
  let l := Layer.mk [Neuron.mk [0; 1] 2 true] in
  let a : ArchitecturalModel.t Z :=
    ArchitecturalModel.mk (ArchitecturalModel.init_registers []) [Triple (RName "I") l "O"] in
  let h : loc → Value Z := λ p, mkValue (Z.of_nat p + 1)%Z 7%Z in
  ArchitecturalModel.parameters a = inr [0; 1; 2] ∧
  (try! h' := zero_grad a h in inr ((λ p, (data (h' p), grad (h' p))) <$> [0; 1; 2; 3]))%exn
  = inr [(1, 0); (2, 0); (3, 0); (4, 7)]%Z.
Proof. split; vm_compute; reflexivity. Qed.

Example zero_grad_graph_raises :
  let l := Layer.mk [Neuron.mk [0; 1] 2 true] in
  let a : ArchitecturalModel.t Z :=
    ArchitecturalModel.mk (ArchitecturalModel.init_registers []) [Bare l] in
  ∀ h : loc → Value Z, zero_grad a h = inl (TypeError CannotUnpack).
Proof. intros l a h. reflexivity. Qed.

(** ** Constructors and the object store *)

Section BuiltFacts.
Context `{Scalar F}.
Implicit Types (st : state F) (ps : list loc).

Lemma built_lt st st' ps d p : built st st' ps d → p ∈ ps → next st ≤ p < next st'.
Proof.
  intros (Hps & Hnext & _) Hp. rewrite Hps in Hp.
  apply elem_of_seq in Hp. lia.
Qed.

Lemma built_trans st st1 st2 ps1 ps2 d1 d2 :
  built st st1 ps1 d1 → built st1 st2 ps2 d2 → built st st2 (ps1 ++ ps2) (d1 + d2).
Proof.
  intros B1 B2.
  pose proof B1 as (Hps1 & Hn1 & Hd1 & Hr1 & Hf1 & Hg1).
  pose proof B2 as (Hps2 & Hn2 & Hd2 & Hr2 & Hf2 & Hg2).
  repeat split.
  - rewrite length_app, seq_app, <- Hn1, <- Hps1, <- Hps2. done.
  - rewrite length_app. lia.
  - lia.
  - congruence.
  - intros p Hp. rewrite Hf2 by lia. by apply Hf1.
  - intros p [Hp|Hp]%elem_of_app; [|by apply Hg2].
    rewrite Hf2; [by apply Hg1|]. by apply (built_lt _ _ _ _ _ B1).
Qed.

Lemma built_nil st : built st st [] 0.
Proof. repeat split; try done; try lia. intros p Hp. by apply elem_of_nil in Hp. Qed.

Lemma random_uniform_built st :
  ∃ st', random_uniform st = (inr (rand st (drawn st)), st') ∧ built st st' [] 1.
Proof.
  eexists. split; [reflexivity|]. repeat split; simpl; try done; try lia.
  intros p Hp. by apply elem_of_nil in Hp.
Qed.

Lemma new_Value_built (d : F) st :
  ∃ st', new_Value d st = (inr (next st), st') ∧ built st st' [next st] 0 ∧
         heap st' (next st) = mkValue d Fzero.
Proof.
  eexists. split; [reflexivity|]. simpl. unfold heap_set.
  split; [|by rewrite decide_True].
  repeat split; simpl; try done; try lia.
  - intros p Hp. rewrite decide_False by lia. done.
  - intros p ->%list_elem_of_singleton. by rewrite decide_True.
Qed.

(** [[Value(random.uniform(-1,1)) for _ in range(nin)]] *)
Lemma weights_built nin st :
  ∃ ws st',
    replicateM nin (let! u := random_uniform in new_Value u)%py st = (inr ws, st') ∧
    built st st' ws nin ∧ length ws = nin ∧
    (λ p, data (heap st' p)) <$> ws = rand st <$> seq (drawn st) nin.
Proof.
  revert st. induction nin as [|nin IH]; intros st.
  - exists [], st. split; [done|]. split; [apply built_nil|done].
  - destruct (random_uniform_built st) as (sa & Hu & Ba).
    destruct (new_Value_built (rand st (drawn st)) sa) as (sb & Hv & Bb & Hval).
    destruct (IH sb) as (ws & st' & Hws & Bc & Hlen & Hdata).
    pose proof (built_trans _ _ _ _ _ _ _ Ba Bb) as Bab. simpl in Bab.
    pose proof (built_trans _ _ _ _ _ _ _ Bab Bc) as B. simpl in B.
    exists (next sa :: ws), st'. split; [|split; [done|split; [by rewrite <- Hlen|]]].
    + simpl. rewrite (bind_inr _ _ st (next sa) sb).
      * by rewrite (bind_inr _ _ _ _ _ Hws).
      * by rewrite (bind_inr _ _ _ _ _ Hu).
    + destruct Bab as (_ & Hnab & Hdab & Hrab & _).
      destruct Bb as (_ & Hnb & _).
      destruct Bc as (_ & _ & _ & _ & Hfc & _). simpl in *.
      rewrite Hfc by lia. rewrite Hval. simpl. f_equal.
      change (list_fmap loc F ?f ws) with (f <$> ws).
      rewrite Hdata, Hrab, Hdab. by replace (drawn st + 1) with (S (drawn st)) by lia.
Qed.

Lemma Neuron_init_built nin nl st :
  ∃ n st',
    Neuron.__init__ nin nl st = (inr n, st') ∧
    built st st' (Neuron.parameters n) nin ∧
    length (Neuron.w n) = nin ∧ Neuron.nonlin n = nl ∧
    weights (heap st') n = rand st <$> seq (drawn st) nin ∧
    bias (heap st') n = Fzero.
Proof.
  destruct (weights_built nin st) as (ws & s1 & Hws & B1 & Hlen & Hdata).
  destruct (new_Value_built Fzero s1) as (s2 & Hb & B2 & Hval).
  pose proof (built_trans _ _ _ _ _ _ _ B1 B2) as B.
  replace (nin + 0) with nin in B by lia.
  exists (Neuron.mk ws (next s1) nl), s2. split; [|split; [done|split; [done|split; [done|]]]].
  - unfold Neuron.__init__. rewrite (bind_inr _ _ _ _ _ Hws), (bind_inr _ _ _ _ _ Hb). done.
  - unfold weights, bias. simpl. rewrite Hval. split; [|done].
    rewrite <- Hdata. apply list_fmap_ext. intros i p Hp.
    destruct B2 as (_ & _ & _ & _ & Hf & _). rewrite Hf; [done|].
    apply (built_lt _ _ _ _ _ B1), list_elem_of_lookup. by exists i.
Qed.

(** A neuron that is complete in [st] keeps its weights and bias while
    later constructors run. *)
Lemma neuron_frame st1 st2 n :
  (∀ p, p ∈ Neuron.parameters n → p < next st1) →
  (∀ p, p < next st1 → heap st2 p = heap st1 p) →
  weights (heap st2) n = weights (heap st1) n ∧ bias (heap st2) n = bias (heap st1) n.
Proof.
  intros Hlt Hf. unfold weights, bias, Neuron.parameters in *. split.
  - apply list_fmap_ext. intros i p Hp. rewrite Hf; [done|].
    apply Hlt, elem_of_app. left. apply list_elem_of_lookup. by exists i.
  - rewrite Hf; [done|]. apply Hlt, elem_of_app. right. by left.
Qed.

(** [[Neuron(nin, **kwargs) for _ in range(nout)]] *)
Lemma neurons_built nin nl nout st :
  ∃ ns st',
    replicateM nout (Neuron.__init__ nin nl) st = (inr ns, st') ∧
    built st st' (ns ≫= Neuron.parameters) (nout * nin) ∧
    length (ns ≫= Neuron.parameters) = nout * (nin + 1) ∧
    ∀ j n, ns !! j = Some n →
      weights (heap st') n = rand st <$> seq (drawn st + j * nin) nin ∧
      bias (heap st') n = Fzero.
Proof.
  revert st. induction nout as [|nout IH]; intros st.
  - exists [], st. split; [done|]. split; [apply built_nil|]. split; [done|].
    intros j n. by rewrite lookup_nil.
  - destruct (Neuron_init_built nin nl st) as (n & s1 & Hn & B1 & Hw & _ & Hws & Hb).
    destruct (IH s1) as (ns & s2 & Hns & B2 & Hlen & Hcont).
    pose proof (built_trans _ _ _ _ _ _ _ B1 B2) as B.
    exists (n :: ns), s2. split; [|split; [|split]].
    + simpl. rewrite (bind_inr _ _ _ _ _ Hn), (bind_inr _ _ _ _ _ Hns). done.
    + replace (S nout * nin) with (nin + nout * nin) by lia. done.
    + rewrite bind_cons, length_app, Hlen. unfold Neuron.parameters.
      rewrite length_app, Hw. simpl. lia.
    + intros [|j] m; simpl.
      * intros [= <-].
        destruct (neuron_frame s1 s2 n) as [-> ->].
        { intros p Hp. by apply (built_lt _ _ _ _ _ B1). }
        { by destruct B2 as (_ & _ & _ & _ & Hf & _). }
        split; [|done]. rewrite Hws. do 2 f_equal. lia.
      * intros Hm. destruct (Hcont j m Hm) as [-> ->]. split; [|done].
        destruct B1 as (_ & _ & -> & -> & _). do 2 f_equal. lia.
Qed.

Lemma Layer_init_built nin nout kw st :
  ∃ l st',
    Layer.__init__ nin nout kw st = (inr l, st') ∧
    built st st' (Layer.parameters l) (nout * nin) ∧
    length (Layer.parameters l) = nout * (nin + 1) ∧
    ∀ j n, Layer.neurons l !! j = Some n →
      weights (heap st') n = rand st <$> seq (drawn st + j * nin) nin ∧
      bias (heap st') n = Fzero.
Proof.
  destruct (neurons_built nin (default true kw) nout st) as (ns & st' & Hns & HB).
  exists (Layer.mk ns), st'. split; [|done].
  unfold Layer.__init__, Layer.new_Neuron. by rewrite (bind_inr _ _ _ _ _ Hns).
Qed.

Lemma standalone_built nin nouts st :
  ∃ ls st',
    standalone_layers nin nouts st = (inr ls, st') ∧
    built st st' (ls ≫= Layer.parameters) (draw_count nin nouts) ∧
    length (ls ≫= Layer.parameters) = param_count nin nouts.
Proof.
  revert nin st. induction nouts as [|n rest IH]; intros nin st.
  - exists [], st. split; [done|]. split; [apply built_nil|done].
  - destruct (Layer_init_built nin n (Some (bool_decide (rest ≠ []))) st)
      as (l & s1 & Hl & B1 & Hlen & _).
    destruct (IH n s1) as (ls & s2 & Hls & B2 & Hlen2).
    exists (l :: ls), s2. split; [|split].
    + simpl. rewrite (bind_inr _ _ _ _ _ Hl), (bind_inr _ _ _ _ _ Hls). done.
    + rewrite bind_cons. simpl. by eapply built_trans.
    + rewrite bind_cons, length_app. simpl. lia.
Qed.
End BuiltFacts.

(** X1. [Neuron(nin)] never raises.  Its parameters are the [nin + 1]
    next free locations, weights first and bias last; the weights hold
    the next [nin] draws of the random source in order, the bias holds
    [0], every gradient is [0], and no object that existed before is
    touched. *)
Theorem Neuron_init_store `{Scalar F} (nin : nat) (nl : bool) (st : state F) :
  ∃ n st',
    Neuron.__init__ nin nl st = (inr n, st') ∧
    Neuron.parameters n = seq (next st) (nin + 1) ∧
    weights (heap st') n = rand st <$> seq (drawn st) nin ∧
    bias (heap st') n = Fzero ∧
    (∀ p, p ∈ Neuron.parameters n → grad (heap st' p) = Fzero) ∧
    (∀ p, p < next st → heap st' p = heap st p) ∧
    next st' = next st + (nin + 1) ∧
    drawn st' = drawn st + nin.
Proof.
  destruct (Neuron_init_built nin nl st) as (n & st' & Hn & B & Hw & _ & Hws & Hb).
  exists n, st'. destruct B as (Hps & Hnext & Hd & _ & Hf & Hg).
  assert (length (Neuron.parameters n) = nin + 1) as Hlen.
  { unfold Neuron.parameters. rewrite length_app, Hw. done. }
  rewrite Hlen in Hps, Hnext. done.
Qed.

(** X2. [Layer(nin, nout)] never raises.  Its parameter list is the
    [nout * (nin + 1)] next free locations in order, so no two neurons
    share a parameter; it draws [nout * nin] random numbers, leaves every
    gradient at [0] and touches no object that existed before. *)
Theorem Layer_init_store `{Scalar F} (nin nout : nat) (kw : kwargs) (st : state F) :
  ∃ l st',
    Layer.__init__ nin nout kw st = (inr l, st') ∧
    Layer.parameters l = seq (next st) (nout * (nin + 1)) ∧
    NoDup (Layer.parameters l) ∧
    (∀ p, p ∈ Layer.parameters l → grad (heap st' p) = Fzero) ∧
    (∀ p, p < next st → heap st' p = heap st p) ∧
    drawn st' = drawn st + nout * nin ∧ rand st' = rand st.
Proof.
  destruct (Layer_init_built nin nout kw st) as (l & st' & Hl & B & Hlen & _).
  exists l, st'. destruct B as (Hps & _ & Hd & Hr & Hf & Hg).
  rewrite Hlen in Hps. split; [done|]. split; [done|].
  split; [rewrite Hps; apply NoDup_seq|done].
Qed.

(** X3. In a layer just built, neuron [j] has as weights the draws
    [j * nin, ..., j * nin + nin - 1] counted from the position of the
    random source at the start, and bias [0]: the neurons are filled in
    order and later neurons do not disturb earlier ones. *)
Theorem Layer_init_weights `{Scalar F} (nin nout : nat) (kw : kwargs) (st : state F) :
  ∃ l st',
    Layer.__init__ nin nout kw st = (inr l, st') ∧
    ∀ j n, Layer.neurons l !! j = Some n →
      weights (heap st') n = rand st <$> seq (drawn st + j * nin) nin ∧
      bias (heap st') n = Fzero.
Proof.
  destruct (Layer_init_built nin nout kw st) as (l & st' & Hl & _ & _ & Hc).
  by exists l, st'.
Qed.

Example Layer_init_weights_run :
  let '(r, st') := Layer.__init__ 2 2 None st0 in
  (try! l := r in
   inr ((λ n, (weights (heap st') n, bias (heap st') n)) <$> Layer.neurons l,
        Layer.parameters l))%exn
  = inr ([([1; -1], 0); ([0; 1], 0)]%Z, [0; 1; 2; 3; 4; 5]).
Proof. vm_compute. reflexivity. Qed.

(** X4. [MLP(nin, nouts)] has [param_count nin nouts] parameters, the sum
    over its layers of (input width + 1) * output width; they are the next
    free locations in order, all with gradient [0]; building the stack
    draws [draw_count nin nouts] random numbers and touches no object that
    existed before. *)
Theorem MLP_init_store `{Scalar F} (nin : nat) (nouts : list nat) (st : state F) :
  ∃ m st',
    MLP.__init__ nin nouts st = (inr m, st') ∧
    MLP.parameters m = seq (next st) (param_count nin nouts) ∧
    (∀ p, p ∈ MLP.parameters m → grad (heap st' p) = Fzero) ∧
    (∀ p, p < next st → heap st' p = heap st p) ∧
    drawn st' = drawn st + draw_count nin nouts.
Proof.
  destruct (standalone_built nin nouts st) as (ls & st' & Hls & B & Hlen).
  exists (MLP.mk ls), st'. split.
  { rewrite MLP_init_standalone. by rewrite (bind_inr _ _ _ _ _ Hls). }
  destruct B as (Hps & _ & Hd & _ & Hf & Hg). unfold MLP.parameters. simpl.
  rewrite Hlen in Hps. done.
Qed.

Example MLP_param_count_16_16_1 : param_count 2 [16; 16; 1] = 337.
Proof. reflexivity. Qed.

(** X5. [ConjoinLayer(l1, l2, nout)] and
    [RegisterConjoinLayer(nin1, nin2, nout)] never raise and build [nout]
    neurons whose weight count is the sum of the two source widths (the
    neuron counts of [l1] and [l2], resp. [nin1 + nin2]), with the
    nonlinearity the keyword gives (on by default); the objects of the
    source layers are not touched. *)
Theorem ConjoinLayer_init_shape `{Scalar F} (l1 l2 : Layer.t) (nin1 nin2 nout : nat)
    (kw : kwargs) (st : state F) :
  (∃ l st',
     ConjoinLayer.__init__ l1 l2 nout kw st = (inr l, st') ∧
     length (Layer.neurons l) = nout ∧
     Forall (λ n, length (Neuron.w n)
                    = length (Layer.neurons l1) + length (Layer.neurons l2) ∧
                  Neuron.nonlin n = default true kw) (Layer.neurons l) ∧
     ∀ p, p < next st → heap st' p = heap st p) ∧
  (∃ l st',
     RegisterConjoinLayer.__init__ nin1 nin2 nout kw st = (inr l, st') ∧
     length (Layer.neurons l) = nout ∧
     Forall (λ n, length (Neuron.w n) = nin1 + nin2 ∧
                  Neuron.nonlin n = default true kw) (Layer.neurons l) ∧
     ∀ p, p < next st → heap st' p = heap st p).
Proof.
  assert (∀ a, ∃ l st',
    Layer.__init__ a nout kw st = (inr l, st') ∧
    length (Layer.neurons l) = nout ∧
    Forall (λ n, length (Neuron.w n) = a ∧ Neuron.nonlin n = default true kw)
           (Layer.neurons l) ∧
    ∀ p, p < next st → heap st' p = heap st p) as Hgen.
  { intros a. destruct (Layer_init_built a nout kw st) as (l & st' & Hl & B & _).
    exists l, st'. split; [done|].
    destruct (Layer_init_shape _ _ _ _ _ _ Hl) as [Hlen Hall].
    by destruct B as (_ & _ & _ & _ & Hf & _). }
  split; apply Hgen.
Qed.

(** ** More on zero_grad and on what the forward pass reads *)

Section SweepFacts.
Context `{Scalar F}.
Implicit Types (h : loc → Value F) (ps : list loc).

(** The sweep in closed form. *)
Lemma sweep_closed ps h q :
  fold_left set_grad_0 ps h q
  = if decide (q ∈ ps) then mkValue (data (h q)) Fzero else h q.
Proof.
  case_decide as Hq.
  - pose proof (sweep_data ps h q) as Hd. pose proof (sweep_grad ps h q Hq) as Hg.
    destruct (fold_left set_grad_0 ps h q) as [d g]. simpl in *. by subst.
  - by apply sweep_other.
Qed.

Lemma sweep_noop ps h q :
  (∀ p, p ∈ ps → grad (h p) = Fzero) → fold_left set_grad_0 ps h q = h q.
Proof.
  intros Hz. rewrite sweep_closed. case_decide as Hq; [|done].
  specialize (Hz q Hq). destruct (h q) as [d g]. simpl in *. by subst.
Qed.

Lemma Neuron_out_local h h' n xs :
  (∀ p, p ∈ Neuron.parameters n → data (h' p) = data (h p)) →
  Neuron.out h' n xs = Neuron.out h n xs.
Proof.
  intros Hd. unfold Neuron.out, Neuron.act, Neuron.parameters in *.
  rewrite (Hd (Neuron.b n)) by (apply elem_of_app; right; by left).
  rewrite (list_fmap_ext (λ p, data (h' p)) (λ p, data (h p)) (Neuron.w n)); [done|].
  intros i p Hp. apply Hd, elem_of_app. left. apply list_elem_of_lookup. by exists i.
Qed.

Lemma Layer_call_local h h' l x :
  (∀ p, p ∈ Layer.parameters l → data (h' p) = data (h p)) →
  Layer.__call__ h' l x = Layer.__call__ h l x.
Proof.
  intros Hd. unfold Layer.__call__, Layer.parameters in *.
  assert (emap (λ n, Neuron.__call__ h' n x) (Layer.neurons l)
          = emap (λ n, Neuron.__call__ h n x) (Layer.neurons l)) as ->; [|done].
  induction (Layer.neurons l) as [|n ns IH]; simpl; [done|].
  rewrite IH by (intros p Hp; apply Hd; rewrite bind_cons, elem_of_app; by right).
  destruct x; simpl; try done.
  rewrite (Neuron_out_local h h' n xs); [done|].
  intros p Hp. apply Hd. rewrite bind_cons, elem_of_app. by left.
Qed.

Lemma MLP_run_local h h' ls x :
  (∀ p, p ∈ ls ≫= Layer.parameters → data (h' p) = data (h p)) →
  MLP.run h' ls x = MLP.run h ls x.
Proof.
  revert x. induction ls as [|l ls IH]; intros x Hd; simpl; [done|].
  rewrite (Layer_call_local h h' l x)
    by (intros p Hp; apply Hd; rewrite bind_cons, elem_of_app; by left).
  destruct (Layer.__call__ h l x) as [e|y]; simpl; [done|].
  apply IH. intros p Hp. apply Hd. rewrite bind_cons, elem_of_app. by right.
Qed.
End SweepFacts.

(** X6. [zero_grad] is idempotent: a second call right after the first
    leaves every object of the store as the first call left it. *)
Theorem zero_grad_idempotent `{Scalar F} `{Parameters T} (self : T)
    (h h1 h2 : loc → Value F) :
  zero_grad self h = inr h1 → zero_grad self h1 = inr h2 → ∀ q, h2 q = h1 q.
Proof.
  intros (ps & Hps & ->)%zero_grad_inv (ps' & Hps' & ->)%zero_grad_inv q.
  rewrite Hps in Hps'. injection Hps' as <-.
  apply sweep_noop. intros p Hp. by apply sweep_grad.
Qed.

Lemma zero_grad_idempotent_witness :
  let n := Neuron.mk [0; 1] 2 true in
  let h : loc → Value Z := λ p, mkValue (Z.of_nat p + 1)%Z 7%Z in
  let h1 := fold_left set_grad_0 [0; 1; 2] h in
  let h2 := fold_left set_grad_0 [0; 1; 2] h1 in
  zero_grad n h = inr h1 ∧ zero_grad n h1 = inr h2 ∧ ∀ q, h2 q = h1 q.
Proof.
  intros n h h1 h2. split; [reflexivity|]. split; [reflexivity|].
  exact (zero_grad_idempotent n h h1 h2 eq_refl eq_refl).
Defined.

(** X7. On a stack that was just built [zero_grad] changes nothing: every
    parameter was created with gradient [0]. *)
Theorem zero_grad_after_init `{Scalar F} (nin : nat) (nouts : list nat) (st : state F) :
  ∃ m st' h',
    MLP.__init__ nin nouts st = (inr m, st') ∧
    zero_grad m (heap st') = inr h' ∧
    ∀ q, h' q = heap st' q.
Proof.
  destruct (standalone_built nin nouts st) as (ls & st' & Hls & B & _).
  exists (MLP.mk ls), st', (fold_left set_grad_0 (MLP.parameters (MLP.mk ls)) (heap st')).
  split; [|split; [done|]].
  { rewrite MLP_init_standalone. by rewrite (bind_inr _ _ _ _ _ Hls). }
  intros q. apply sweep_noop. by destruct B as (_ & _ & _ & _ & _ & Hg).
Qed.

(** X8. The forward pass of a stack reads nothing but the [data] of the
    stack's own parameters: two stores that agree on those give the same
    result, error or value, on every input. *)
Theorem MLP_call_reads_own_parameters `{Scalar F} (m : MLP.t) (h h' : loc → Value F)
    (x : pyval F) :
  (∀ p, p ∈ MLP.parameters m → data (h' p) = data (h p)) →
  MLP.__call__ h' m x = MLP.__call__ h m x.
Proof. intros Hd. by apply MLP_run_local. Qed.

Lemma MLP_call_reads_own_parameters_witness :
  let m := MLP.mk [Layer.mk [Neuron.mk [0; 1] 2 false]] in
  let h : loc → Value Z := λ p, mkValue (Z.of_nat p + 1)%Z 7%Z in
  let h' : loc → Value Z :=
    λ p, mkValue (if decide (p < 3) then (Z.of_nat p + 1)%Z else 0%Z) 0%Z in
  MLP.__call__ h' m (PList [5; 7]%Z) = MLP.__call__ h m (PList [5; 7]%Z).
Proof.
  intros m h h'. apply (MLP_call_reads_own_parameters m h h').
  intros p Hp. change (p ∈ [0; 1; 2]) in Hp.
  repeat (apply elem_of_cons in Hp as [->|Hp]; [reflexivity|]).
  by apply elem_of_nil in Hp.
Defined.

(** ** Shapes through a stack, and what [repr] prints *)

Section ShapeFacts.
Context `{Scalar F}.
Implicit Types (h : loc → Value F) (l : Layer.t) (ls : list Layer.t) (xs : list F).

Lemma Layer_call_wide h l xs :
  length (Layer.neurons l) ≠ 1 → Layer.__call__ h l (PList xs) = inr (PList (outs h l xs)).
Proof.
  intros Hne. rewrite Layer_call_list. unfold outs.
  by destruct (Layer.neurons l) as [|n [|n' ns]].
Qed.

Lemma Layer_call_not_list h l (x : pyval F) n ns :
  Layer.neurons l = n :: ns → (∀ xs, x ≠ PList xs) →
  Layer.__call__ h l x = inl (TypeError NotIterable).
Proof.
  intros Hns Hx. unfold Layer.__call__. rewrite Hns. simpl.
  destruct x as [|v|xs]; simpl; try done. by destruct (Hx xs).
Qed.

Lemma MLP_run_app h ls1 ls2 (x : pyval F) :
  MLP.run h (ls1 ++ ls2) x = (try! y := MLP.run h ls1 x in MLP.run h ls2 y)%exn.
Proof.
  revert x. induction ls1 as [|l ls1 IH]; intros x; simpl; [done|].
  destruct (Layer.__call__ h l x) as [e|y]; simpl; [done|apply IH].
Qed.

Lemma MLP_run_wide h ls xs :
  Forall (λ l, length (Layer.neurons l) ≠ 1) ls →
  MLP.run h ls (PList xs) = inr (PList (feed h ls xs)).
Proof.
  intros Hall. revert xs. induction Hall as [|l ls Hl _ IH]; intros xs; simpl; [done|].
  rewrite Layer_call_wide by done. simpl. apply IH.
Qed.

Lemma fmap_const_replicate {A B} (f : A → B) (c : B) (l : list A) :
  Forall (λ a, f a = c) l → f <$> l = replicate (length l) c.
Proof. induction 1 as [|a l Ha _ IH]; [done|]. rewrite fmap_cons, Ha, IH. done. Qed.

Lemma Layer_repr_built nin nout kw (st : state F) l st' :
  Layer.__init__ nin nout kw st = (inr l, st') →
  Layer.__repr__ l = layer_text nin nout (default true kw).
Proof.
  intros [Hlen Hall]%Layer_init_shape. unfold Layer.__repr__, layer_text.
  rewrite (fmap_const_replicate Neuron.__repr__
             ((if default true kw then "ReLU" else "Linear")
                +:+ "Neuron(" +:+ pretty nin +:+ ")")).
  - by rewrite Hlen.
  - eapply Forall_impl; [exact Hall|]. intros n [Hw Hnl].
    unfold Neuron.__repr__. by rewrite Hw, Hnl.
Qed.

Lemma standalone_texts nin nouts (st : state F) ls st' :
  standalone_layers nin nouts st = (inr ls, st') →
  Layer.__repr__ <$> ls = layer_texts nin nouts.
Proof.
  revert nin st ls st'. induction nouts as [|n rest IH]; intros nin st ls st'; simpl.
  - unfold ret. by intros [= <- _].
  - intros [(e & _ & [=])|(l & s1 & Hl & Hk)]%bind_cases.
    apply bind_cases in Hk as [(e & _ & [=])|(ls' & s2 & Hls & Hk)].
    unfold ret in Hk. injection Hk as <- _.
    rewrite fmap_cons. f_equal; [|by eapply IH].
    by rewrite (Layer_repr_built _ _ _ _ _ _ Hl).
Qed.
End ShapeFacts.

(** X9. A layer raises exactly when it has at least one neuron and is
    handed something that is no list ([None] or a bare scalar): the error
    is the [TypeError] of [zip].  A layer without neurons returns [[]]
    whatever it is handed; on a list, a layer returns its single neuron's
    result, or the list of its neurons' results. *)
Theorem Layer_call_cases `{Scalar F} (h : loc → Value F) (l : Layer.t) (x : pyval F) :
  Layer.__call__ h l x =
  match x, Layer.neurons l with
  | PList xs, [n] => inr (PScalar (Neuron.out h n xs))
  | PList xs, _ => inr (PList (outs h l xs))
  | _, [] => inr (PList [])
  | _, _ :: _ => inl (TypeError NotIterable)
  end.
Proof.
  destruct x as [|v|xs].
  - destruct (Layer.neurons l) as [|n ns] eqn:Hns.
    + unfold Layer.__call__. by rewrite Hns.
    + by eapply Layer_call_not_list.
  - destruct (Layer.neurons l) as [|n ns] eqn:Hns.
    + unfold Layer.__call__. by rewrite Hns.
    + by eapply Layer_call_not_list.
  - rewrite Layer_call_list. unfold outs.
    by destruct (Layer.neurons l) as [|n [|n' ns]].
Qed.

(** X10. When no layer before the last has exactly one neuron, a stack
    applied to a list never raises: every layer before the last hands a
    list on, and the result is what the last layer returns on the vector
    [feed] that reaches it (a scalar if that layer has one neuron, a list
    with one entry per neuron otherwise). *)
Theorem MLP_call_wide_hidden `{Scalar F} (h : loc → Value F) (ls : list Layer.t)
    (l : Layer.t) (xs : list F) :
  Forall (λ l', length (Layer.neurons l') ≠ 1) ls →
  MLP.__call__ h (MLP.mk (ls ++ [l])) (PList xs)
  = inr (match Layer.neurons l with
         | [n] => PScalar (Neuron.out h n (feed h ls xs))
         | _ => PList (outs h l (feed h ls xs))
         end) ∧
  length (outs h l (feed h ls xs)) = length (Layer.neurons l).
Proof.
  intros Hall. split; [|by unfold outs; rewrite length_fmap].
  unfold MLP.__call__. simpl. rewrite MLP_run_app, MLP_run_wide by done. simpl.
  rewrite Layer_call_list. unfold outs.
  by destruct (Layer.neurons l) as [|n [|n' ns]].
Qed.

Lemma MLP_call_wide_hidden_witness :
  let l1 := Layer.mk [Neuron.mk [0; 1] 2 true; Neuron.mk [3; 4] 5 true] in
  let l2 := Layer.mk [Neuron.mk [6; 7] 8 false] in
  let h : loc → Value Z := λ p, mkValue (Z.of_nat p) 0%Z in
  MLP.__call__ h (MLP.mk [l1; l2]) (PList [1; 2]%Z) = inr (PScalar 144%Z).
Proof.
  intros l1 l2 h.
  refine (proj1 (MLP_call_wide_hidden h [l1] l2 [1; 2]%Z _)).
  repeat constructor. simpl. lia.
Defined.

(** X11. A layer of exactly one neuron that is followed by a layer with at
    least one neuron breaks the stack: the single neuron's scalar is handed
    on bare, and the next layer's [zip] raises [TypeError], on every input
    list. *)
Theorem MLP_call_hidden_width_one `{Scalar F} (h : loc → Value F)
    (ls rest : list Layer.t) (l1 l2 : Layer.t) (xs : list F) :
  Forall (λ l', length (Layer.neurons l') ≠ 1) ls →
  length (Layer.neurons l1) = 1 →
  Layer.neurons l2 ≠ [] →
  MLP.__call__ h (MLP.mk (ls ++ l1 :: l2 :: rest)) (PList xs) = inl (TypeError NotIterable).
Proof.
  intros Hall H1 H2. unfold MLP.__call__. simpl.
  rewrite MLP_run_app, MLP_run_wide by done. simpl.
  rewrite Layer_call_list.
  destruct (Layer.neurons l1) as [|n [|n' ns]]; simpl in H1; try done. simpl.
  destruct (Layer.neurons l2) as [|m ms] eqn:Hm; [done|].
  by rewrite (Layer_call_not_list h l2 _ m ms Hm).
Qed.

Lemma MLP_call_hidden_width_one_witness :
  let l1 := Layer.mk [Neuron.mk [0; 1] 2 true] in
  let l2 := Layer.mk [Neuron.mk [3] 4 false] in
  let h : loc → Value Z := λ p, mkValue (Z.of_nat p)%Z 0%Z in
  MLP.__call__ h (MLP.mk [l1; l2]) (PList [1; 2]%Z) = inl (TypeError NotIterable).
Proof.
  intros l1 l2 h.
  refine (MLP_call_hidden_width_one h [] [] l1 l2 [1; 2]%Z _ _ _).
  - constructor.
  - reflexivity.
  - simpl. congruence.
Defined.

(** X12. [repr] of a layer just built by [Layer(nin, nout, **kwargs)] is
    ["Layer of [" + ", ".join(nout copies of "ReLUNeuron(nin)") + "]"],
    with ["LinearNeuron(nin)"] instead when [nonlin=False] was passed. *)
Theorem Layer_repr_init `{Scalar F} (nin nout : nat) (kw : kwargs) (st : state F) :
  ∃ l st',
    Layer.__init__ nin nout kw st = (inr l, st') ∧
    Layer.__repr__ l = layer_text nin nout (default true kw).
Proof.
  destruct (Layer_init_total nin nout kw st) as (l & st' & Hl).
  exists l, st'. split; [done|]. by eapply Layer_repr_built.
Qed.

Example Layer_repr_run :
  (try! l := (Layer.__init__ 12 2 None st0).1 in inr (Layer.__repr__ l))%exn
  = inr "Layer of [ReLUNeuron(12), ReLUNeuron(12)]".
Proof. vm_compute. reflexivity. Qed.

(** X13. [repr] of a stack just built by [MLP(nin, nouts)] lists its
    layers in order, each printed with its input width and neuron count,
    all of them ReLU but the last, which is Linear. *)
Theorem MLP_repr_init `{Scalar F} (nin : nat) (nouts : list nat) (st : state F) :
  ∃ m st',
    MLP.__init__ nin nouts st = (inr m, st') ∧
    MLP.__repr__ m = "MLP of [" +:+ String.concat ", " (layer_texts nin nouts) +:+ "]".
Proof.
  destruct (standalone_total nin nouts st) as (ls & st' & Hls).
  exists (MLP.mk ls), st'. split.
  { rewrite MLP_init_standalone. by rewrite (bind_inr _ _ _ _ _ Hls). }
  unfold MLP.__repr__. simpl. by rewrite (standalone_texts _ _ _ _ _ Hls).
Qed.

Example MLP_repr_run :
  (try! m := (MLP.__init__ 3 [2; 1] st0).1 in inr (MLP.__repr__ m))%exn
  = inr "MLP of [Layer of [ReLUNeuron(3), ReLUNeuron(3)], Layer of [LinearNeuron(2)]]".
Proof. vm_compute. reflexivity. Qed.

(** ** The register graph: evaluation *)

Section GraphFacts.
Import ArchitecturalModel.
Context `{Scalar F}.
Implicit Types (h : loc → Value F) (regs : gmap string (pyval F)) (r : string)
  (es : list entry) (ls : list Layer.t).

Lemma init_registers_None (registers : list string) r (v : pyval F) :
  init_registers registers !! r = Some v → v = PNone.
Proof.
  unfold init_registers. intros [Hl|[_ Hr]]%lookup_union_Some_raw.
  - apply elem_of_list_to_map_2 in Hl.
    apply list_elem_of_fmap in Hl as (r' & Heq & _). congruence.
  - apply lookup_insert_Some in Hr as [[_ <-]|[_ Hr]]; [done|].
    apply lookup_insert_Some in Hr as [[_ <-]|[_ Hr]]; [done|].
    by rewrite lookup_empty in Hr.
Qed.

Lemma init_registers_declared (registers : list string) r :
  init_registers (F:=F) registers !! r = Some PNone ↔ r ∈ registers ∨ r = "I" ∨ r = "O".
Proof.
  split.
  - unfold init_registers. intros [Hl|[_ Hr]]%lookup_union_Some_raw.
    + left. apply elem_of_list_to_map_2 in Hl.
      apply list_elem_of_fmap in Hl as (r' & Heq & Hin). congruence.
    + right. apply lookup_insert_Some in Hr as [ [ <- _ ] | [_ Hr] ]; [by left|].
      apply lookup_insert_Some in Hr as [ [ <- _ ] | [_ Hr] ]; [by right|].
      by rewrite lookup_empty in Hr.
  - intros Hr.
    assert (is_Some (init_registers (F:=F) registers !! r)) as [v Hv].
    { unfold init_registers. apply lookup_union_is_Some.
      destruct Hr as [Hr|[-> | ->]].
      - left. apply not_eq_None_Some. intros Hn%not_elem_of_list_to_map_2.
        apply Hn. rewrite <- list_fmap_compose. simpl.
        apply list_elem_of_fmap. by exists r.
      - right. by rewrite lookup_insert_eq.
      - right. rewrite lookup_insert_ne by done. by rewrite lookup_insert_eq. }
    by rewrite Hv, (init_registers_None _ _ _ Hv).
Qed.

Lemma run_app h es1 es2 regs :
  run h (es1 ++ es2) regs = (try! regs1 := run h es1 regs in run h es2 regs1)%exn.
Proof.
  revert regs. induction es1 as [|[l|ri l ro] es1 IH]; intros regs; simpl; [done..|].
  destruct (read_input regs ri) as [e|v]; simpl; [done|].
  destruct (Layer.__call__ h l v) as [e|y]; simpl; [done|]. apply IH.
Qed.

(** A register that no step writes holds at the end what it held at the
    start. *)
Lemma run_frame h es regs regs' r :
  run h es regs = inr regs' → r ∉ written es → regs' !! r = regs !! r.
Proof.
  revert regs. induction es as [|[l|ri l ro] es IH]; intros regs Hrun Hr.
  - by injection Hrun as <-.
  - done.
  - cbn [run] in Hrun.
    destruct (read_input regs ri) as [e|v]; simpl in Hrun; [done|].
    destruct (Layer.__call__ h l v) as [e|y]; simpl in Hrun; [done|].
    unfold written in Hr. rewrite bind_cons in Hr.
    apply not_elem_of_app in Hr as [Hne Hr]. rewrite (IH _ Hrun Hr).
    apply lookup_insert_ne. intros ->. apply Hne. by left.
Qed.

Lemma chain_cons src l l' ls r names dst :
  chain src (l :: l' :: ls) (r :: names) dst
  = Triple (RName src) l r :: chain r (l' :: ls) names dst.
Proof. reflexivity. Qed.

Lemma run_chain h ls src names dst regs (x : pyval F) :
  length ls = S (length names) → regs !! src = Some x →
  (try! regs' := run h (chain src ls names dst) regs in dict_get regs' dst)%exn
  = MLP.run h ls x.
Proof.
  revert src names regs x. induction ls as [|l ls IH]; intros src names regs x Hlen Hx.
  { done. }
  destruct ls as [|l' ls].
  - destruct names; [|done]. unfold chain. simpl.
    unfold dict_get at 1. rewrite Hx. simpl.
    destruct (Layer.__call__ h l x) as [e|y]; simpl; [done|].
    unfold dict_get. by rewrite lookup_insert_eq.
  - destruct names as [|r names]; [done|]. rewrite chain_cons.
    cbn [run MLP.run read_input]. unfold dict_get at 1. rewrite Hx. cbn [ebind].
    destruct (Layer.__call__ h l x) as [e|y]; cbn [ebind]; [done|].
    apply IH; [simpl in *; lia|]. apply lookup_insert_eq.
Qed.

Lemma parameters_chain ls src names dst :
  length ls = S (length names) →
  parameters_of (chain src ls names dst) = inr (ls ≫= Layer.parameters).
Proof.
  revert src names. induction ls as [|l ls IH]; intros src names Hlen; [done|].
  destruct ls as [|l' ls].
  - destruct names; [|done]. unfold chain. simpl. by rewrite app_nil_r.
  - destruct names as [|r names]; [done|]. rewrite chain_cons.
    cbn [parameters_of]. rewrite IH by (simpl in *; lia). simpl. done.
Qed.
End GraphFacts.

(** X14. With an empty architecture the constructor succeeds and touches
    nothing: the model has no layers and no parameters, its registers are
    ["I"], ["O"] and the declared names, all holding [None], and
    evaluating it returns [None] whatever the input. *)
Theorem empty_architecture_model `{Scalar F} (nin : nat) (registers : list string)
    (st : state F) (h : loc → Value F) (x : pyval F) :
  ∃ m,
    ArchitecturalModel.__init__ nin registers [] st = (inr m, st) ∧
    ArchitecturalModel.layers m = [] ∧
    (∀ r, ArchitecturalModel.registers m !! r = Some PNone
          ↔ r ∈ registers ∨ r = "I" ∨ r = "O") ∧
    (∀ r v, ArchitecturalModel.registers m !! r = Some v → v = PNone) ∧
    ArchitecturalModel.parameters m = inr [] ∧
    ArchitecturalModel.__call__ h m x = inr PNone.
Proof.
  eexists. split; [reflexivity|]. simpl. split; [done|].
  split; [apply init_registers_declared|].
  split; [apply init_registers_None|]. split; [done|].
  unfold ArchitecturalModel.__call__. simpl. unfold dict_get.
  rewrite lookup_insert_ne by done.
  by rewrite (proj2 (init_registers_declared registers "O")) by (right; by right).
Qed.

(** X15. The constructor returns a model exactly when the architecture is
    empty: with at least one step it raises, in the width pass or at the
    first step of the layer pass. *)
Theorem init_succeeds_iff_empty `{Scalar F} (nin : nat) (registers : list string)
    (architecture : list step) (st : state F) :
  (∃ m st', ArchitecturalModel.__init__ nin registers architecture st = (inr m, st'))
  ↔ architecture = [].
Proof.
  split.
  - intros (m & st' & Hm). destruct architecture as [|s rest]; [done|].
    destruct (init_nonempty_raises nin registers s rest st) as [e He].
    rewrite Hm in He. done.
  - intros ->. by eexists _, _.
Qed.

(** X16. A register graph that is a chain from ["I"] to ["O"] (each step
    reads the register the step before wrote) computes what the stack of
    the same layers computes, errors included, and lists the same
    parameters, whatever the names of the registers in between and
    whatever [self.registers] declares. *)
Theorem chain_graph_is_stack `{Scalar F} (h : loc → Value F)
    (regs : gmap string (pyval F)) (ls : list Layer.t) (names : list string)
    (x : pyval F) :
  length ls = S (length names) →
  ArchitecturalModel.__call__ h (ArchitecturalModel.mk regs (chain "I" ls names "O")) x
  = MLP.__call__ h (MLP.mk ls) x ∧
  ArchitecturalModel.parameters (ArchitecturalModel.mk regs (chain "I" ls names "O"))
  = inr (MLP.parameters (MLP.mk ls)).
Proof.
  intros Hlen. split.
  - unfold ArchitecturalModel.__call__, MLP.__call__. simpl.
    apply run_chain; [done|]. apply lookup_insert_eq.
  - by apply parameters_chain.
Qed.

Lemma chain_graph_is_stack_witness :
  let l1 := Layer.mk [Neuron.mk [0; 1] 2 true; Neuron.mk [3; 4] 5 true] in
  let l2 := Layer.mk [Neuron.mk [6; 7] 8 false] in
  let h : loc → Value Z := λ p, mkValue (Z.of_nat p) 0%Z in
  let a := ArchitecturalModel.mk ∅ (chain "I" [l1; l2] ["r0"] "O") in
  ArchitecturalModel.__call__ h a (PList [1; 2]%Z) = MLP.__call__ h (MLP.mk [l1; l2]) (PList [1; 2]%Z) ∧
  ArchitecturalModel.parameters a = inr (MLP.parameters (MLP.mk [l1; l2])).
Proof.
  intros l1 l2 h a.
  exact (chain_graph_is_stack h ∅ [l1; l2] ["r0"] (PList [1; 2]%Z) eq_refl).
Defined.

Example chain_graph_runs :
  let l1 := Layer.mk [Neuron.mk [0; 1] 2 true; Neuron.mk [3; 4] 5 true] in
  let l2 := Layer.mk [Neuron.mk [6; 7] 8 false] in
  let h : loc → Value Z := λ p, mkValue (Z.of_nat p) 0%Z in
  ArchitecturalModel.__call__ h
    (ArchitecturalModel.mk ∅ [Triple (RName "I") l1 "r0"; Triple (RName "r0") l2 "O"])
    (PList [1; 2]%Z)
  = inr (PScalar 144%Z).
Proof. vm_compute. reflexivity. Qed.

(** X17. When no step writes ["O"], an evaluation that raises nothing
    returns what [self.registers] holds for ["O"]: the steps' results are
    dropped, and for a model whose registers are as [__init__] leaves
    them the result is [None]. *)
Theorem call_without_output_step `{Scalar F} (h : loc → Value F)
    (self : ArchitecturalModel.t F) (x v : pyval F) :
  "O" ∉ written (ArchitecturalModel.layers self) →
  ArchitecturalModel.__call__ h self x = inr v →
  ArchitecturalModel.registers self !! "O" = Some v ∧
  (∀ registers,
      ArchitecturalModel.registers self = ArchitecturalModel.init_registers registers →
      v = PNone).
Proof.
  intros HO. unfold ArchitecturalModel.__call__.
  destruct (ArchitecturalModel.run h _ _) as [e|regs'] eqn:Hrun; simpl; [done|].
  apply (run_frame _ _ _ _ "O") in Hrun; [|done].
  rewrite lookup_insert_ne in Hrun by done.
  unfold dict_get. rewrite Hrun.
  destruct (ArchitecturalModel.registers self !! "O") as [v'|] eqn:Hv; [|done].
  intros [= <-]. split; [done|].
  intros registers Hregs. rewrite Hregs in Hv. by eapply init_registers_None.
Qed.

Lemma call_without_output_step_witness :
  let l := Layer.mk [Neuron.mk [0; 1] 2 true] in
  let h : loc → Value Z := λ p, mkValue (Z.of_nat p) 0%Z in
  let a := ArchitecturalModel.mk (ArchitecturalModel.init_registers ["r0"])
                                 [Triple (RName "I") l "r0"] in
  ArchitecturalModel.__call__ h a (PList [1; 2]%Z) = inr PNone ∧
  ArchitecturalModel.registers a !! "O" = Some PNone.
Proof.
  intros l h a.
  assert (ArchitecturalModel.__call__ h a (PList [1; 2]%Z) = inr PNone) as Hcall
    by (vm_compute; reflexivity).
  split; [exact Hcall|].
  refine (proj1 (call_without_output_step h a (PList [1; 2]%Z) PNone _ Hcall)).
  vm_compute. intros Hin. inversion Hin; subst. by match goal with Hx : _ ∈ [] |- _ => inversion Hx end.
Defined.

(** X18. A step that reads a register other than ["I"] which no earlier
    step wrote does not get a usable vector.  If the register is not a key
    of [self.registers] the read raises [KeyError]; if it is declared, and
    so still holds [None], and the step's layer has a neuron, the layer
    raises [TypeError].  (The steps before it are assumed to run.) *)
Theorem unset_register_read `{Scalar F} (h : loc → Value F)
    (self : ArchitecturalModel.t F) (x : pyval F)
    (pre post : list entry) (r rout : string) (l : Layer.t)
    (regs1 : gmap string (pyval F)) :
  ArchitecturalModel.layers self = pre ++ Triple (RName r) l rout :: post →
  r ≠ "I" → r ∉ written pre →
  ArchitecturalModel.run h pre (<["I" := x]> (ArchitecturalModel.registers self)) = inr regs1 →
  (ArchitecturalModel.registers self !! r = None →
   ArchitecturalModel.__call__ h self x = inl (KeyError r)) ∧
  (ArchitecturalModel.registers self !! r = Some PNone → Layer.neurons l ≠ [] →
   ArchitecturalModel.__call__ h self x = inl (TypeError NotIterable)).
Proof.
  intros Hlayers HI Hr Hpre.
  assert (regs1 !! r = ArchitecturalModel.registers self !! r) as Hlook.
  { rewrite (run_frame _ _ _ _ r Hpre Hr). by apply lookup_insert_ne. }
  unfold ArchitecturalModel.__call__. rewrite Hlayers, run_app, Hpre. simpl.
  unfold dict_get at 1 3. rewrite Hlook. split.
  - by intros ->.
  - intros -> Hns. simpl.
    destruct (Layer.neurons l) as [|n ns] eqn:Hn; [done|].
    by rewrite (Layer_call_not_list h l PNone n ns Hn).
Qed.

Lemma unset_register_read_witness :
  let l := Layer.mk [Neuron.mk [0; 1] 2 true] in
  let h : loc → Value Z := λ p, mkValue (Z.of_nat p) 0%Z in
  let used := ArchitecturalModel.mk (ArchitecturalModel.init_registers ["r1"])
                                    [Triple (RName "r1") l "O"] in
  let unknown := ArchitecturalModel.mk (ArchitecturalModel.init_registers [])
                                       [Triple (RName "r1") l "O"] in
  ArchitecturalModel.__call__ h used (PList [1; 2]%Z) = inl (TypeError NotIterable) ∧
  ArchitecturalModel.__call__ h unknown (PList [1; 2]%Z) = inl (KeyError "r1").
Proof.
  intros l h used unknown. split.
  - refine (proj2 (unset_register_read h used (PList [1; 2]%Z) [] [] "r1" "O" l _
                     eq_refl _ _ eq_refl) _ _).
    + done.
    + apply not_elem_of_nil.
    + vm_compute. reflexivity.
    + simpl. congruence.
  - refine (proj1 (unset_register_read h unknown (PList [1; 2]%Z) [] [] "r1" "O" l _
                     eq_refl _ _ eq_refl) _).
    + done.
    + apply not_elem_of_nil.
    + vm_compute. reflexivity.
Defined.

(** X19. The split graph of the docstring, once [self.layers] holds its
    three triples: when neither branch layer has exactly one neuron, the
    graph applied to a list returns what the last layer returns on the
    results of the first branch followed by those of the second. *)
Theorem split_graph_call `{Scalar F} (h : loc → Value F) (regs : gmap string (pyval F))
    (l0 l1 l2 : Layer.t) (xs : list F) :
  length (Layer.neurons l0) ≠ 1 → length (Layer.neurons l1) ≠ 1 →
  ArchitecturalModel.__call__ h (ArchitecturalModel.mk regs (split_layers l0 l1 l2)) (PList xs)
  = Layer.__call__ h l2 (PList (outs h l0 xs ++ outs h l1 xs)).
Proof.
  intros H0 H1. unfold ArchitecturalModel.__call__, split_layers. simpl.
  unfold dict_get at 1. rewrite lookup_insert_eq. simpl.
  rewrite Layer_call_wide by done. simpl.
  unfold dict_get at 1. rewrite lookup_insert_ne, lookup_insert_eq by done. simpl.
  rewrite Layer_call_wide by done. simpl.
  unfold dict_get at 1. rewrite lookup_insert_ne, lookup_insert_eq by done. simpl.
  unfold dict_get at 1. rewrite lookup_insert_eq. simpl.
  destruct (Layer.__call__ h l2 _) as [e|y]; simpl; [done|].
  unfold dict_get. by rewrite lookup_insert_eq.
Qed.

Lemma split_graph_call_witness :
  let l0 := Layer.mk [Neuron.mk [0] 1 false; Neuron.mk [2] 3 false] in
  let l1 := Layer.mk [Neuron.mk [4] 5 false; Neuron.mk [6] 7 false] in
  let l2 := Layer.mk [Neuron.mk [8; 9; 10; 11] 12 false] in
  let h : loc → Value Z := λ p, mkValue (Z.of_nat p) 0%Z in
  ArchitecturalModel.__call__ h (ArchitecturalModel.mk ∅ (split_layers l0 l1 l2)) (PList [1]%Z)
  = inr (PScalar 298%Z).
Proof.
  intros l0 l1 l2 h.
  refine (split_graph_call h ∅ l0 l1 l2 [1]%Z _ _); simpl; lia.
Defined.

(** ** The register-width pass, characterised *)

Lemma first_declared_app_l (pre post : list step) (r : string) (e : nat) :
  first_declared pre r = Some e → first_declared (pre ++ post) r = Some e.
Proof.
  induction pre as [|s pre IH]; simpl; [done|].
  case_decide; [done|apply IH].
Qed.

Lemma recorded_app_l (nin : nat) (pre post : list step) (r : string) (e : nat) :
  recorded nin pre r = Some e → recorded nin (pre ++ post) r = Some e.
Proof. unfold recorded. case_decide; [done|apply first_declared_app_l]. Qed.

(** X20. The register-width pass accepts an architecture exactly when
    every step declares, for its output register, the width on record
    for it: [nin] for ["I"], otherwise the width of the first step that
    writes the register.  Writing a register again with the same width is
    therefore allowed.  The table the pass returns holds that recorded
    width for every register, and nothing for a register that is neither
    ["I"] nor written by a step. *)
Theorem width_pass_accepts (nin : nat) (architecture : list step) :
  (∀ s, s ∈ architecture → recorded nin architecture (rout s) = Some (nn s))
  ↔ ∃ sizes,
      ArchitecturalModel.infer_sizes architecture (<["I" := nin]> ∅) = inr sizes ∧
      ∀ r, sizes !! r = recorded nin architecture r.
Proof.
  split.
  - intros Hall.
    destruct (ArchitecturalModel.infer_sizes architecture (<["I" := nin]> ∅))
      as [e|sizes] eqn:Hs.
    + exfalso.
      apply infer_sizes_error in Hs
        as (pre & s & post & sizes' & expected & -> & Hpre & Hlook & Hne & _).
      rewrite (infer_sizes_recorded _ _ _ _ Hpre) in Hlook.
      apply (recorded_app_l _ _ (s :: post)) in Hlook.
      rewrite Hall in Hlook by (apply elem_of_app; right; by left).
      congruence.
    + exists sizes. split; [done|]. intros r. by apply infer_sizes_recorded.
  - intros (sizes & Hs & Hrec) s Hin.
    rewrite <- Hrec. by apply (infer_sizes_ok _ _ _ Hs).
Qed.

Example width_pass_same_width_twice :
  ArchitecturalModel.infer_sizes
    [mkStep (RName "I") 4 "r0" None; mkStep (RName "r0") 4 "r0" None;
     mkStep (RName "r0") 2 "O" None] (<["I" := 3]> ∅)
  = inr (<["O" := 2]> (<["r0" := 4]> (<["I" := 3]> ∅))).
Proof. vm_compute. reflexivity. Qed.
